(** * Archive.cpp: the multi-format archive handle of SumatraPDF

    A shallow embedding of [src/utils/Archive.cpp]: the [Archive] class
    (open, entry table, extraction by id and by name, global comment) and
    the [UnRarDll] fallback extractor, followed by the properties that the
    specification states about them.

    The per-format decoders (unarr) and unrar.dll are outside the file; they
    appear here as the interfaces the file drives them through. *)

From Stdlib Require Import ZArith Lia Bool Ascii String.
From Stdlib.Strings Require Import Byte.
From stdpp Require Import base option list.

Local Open Scope Z_scope.

(** ** Build configuration *)

(** [size_t] is 32 or 64 bits wide, and [ENABLE_UNRARDLL_FALLBACK] is
    [OS_WIN] (lines 15-19). *)
Inductive Arch := x86 | x64.

Record Build := { arch : Arch; OS_WIN : bool }.

Definition ENABLE_UNRARDLL_FALLBACK (bld : Build) : bool := OS_WIN bld.

Definition size_bits (bld : Build) : Z :=
  match arch bld with x86 => 32 | x64 => 64 end.

Definition SIZE_MAX (bld : Build) : Z := 2 ^ size_bits bld - 1.

(** Conversion to [size_t]: arithmetic on [size_t] wraps around. *)
Definition to_size_t (bld : Build) (z : Z) : Z := z mod 2 ^ size_bits bld.

(** [sizeof(void* )], and the largest length a [std::vector<FileInfo*>] accepts
    before [push_back] throws [std::length_error]. *)
Definition sizeof_ptr (bld : Build) : Z := size_bits bld / 8.

Definition vector_max_size (bld : Build) : Z := SIZE_MAX bld / sizeof_ptr bld.

(** ** Outcomes of a call *)

(** Modelled from the spec: the [CrashIf] macro of BaseUtil.h is not in the
    file; the spec treats the violation of a condition it guards as fatal to
    the process, so a [CrashIf] that fires ends the call with [Crashed]. *)
Inductive outcome (T : Type) : Type :=
| Returned (t : T)   (* the call came back with [t] *)
| Crashed            (* [CrashIf] fired, or an exception left the call *)
| Spinning.          (* the loop was still running when the model cut it off *)

Arguments Returned {T} t.
Arguments Crashed {T}.
Arguments Spinning {T}.

(** ** Byte buffers *)

Definition x00 : byte := Byte.x00.

(** [memcpy]-like store of the first [n] bytes of [src] at the start of [buf]. *)
Definition store_bytes (buf src : list byte) (n : nat) : list byte :=
  take n src ++ drop (length (take n src)) buf.

(** ** Narrow and wide strings (StrUtil) *)

(** Modelled from the spec: [str::EqI] of StrUtil.cpp is not in the file; the
    spec says names are compared case-insensitively.  Equal pointers (two null
    strings) compare equal, one null string never does, and otherwise the
    bytes are compared after folding ASCII upper case to lower case. *)
Definition tolower (c : ascii) : ascii :=
  let n := N_of_ascii c in
  if ((65 <=? n) && (n <=? 90))%N then ascii_of_N (n + 32) else c.

Fixpoint stricmp_eq (s t : string) : bool :=
  match s, t with
  | EmptyString, EmptyString => true
  | String c s', String d t' => Ascii.eqb (tolower c) (tolower d) && stricmp_eq s' t'
  | _, _ => false
  end.

Definition EqI (s1 s2 : option string) : bool :=
  match s1, s2 with
  | None, None => true
  | Some s, Some t => stricmp_eq s t
  | _, _ => false
  end.

(** The text with ASCII upper case folded to lower case. *)
Fixpoint lowercase (s : string) : string :=
  match s with
  | EmptyString => EmptyString
  | String c s' => String (tolower c) (lowercase s')
  end.

(** A [WCHAR] is a 16-bit code unit; a wide string is the list of its units
    before the terminator. *)
Definition WCHAR := Z.
Definition wstring := list WCHAR.

(** The wide literal [L"..."] of an ASCII text. *)
Fixpoint L (s : string) : wstring :=
  match s with
  | EmptyString => []
  | String c s' => Z.of_N (N_of_ascii c) :: L s'
  end.

Definition towlower (c : WCHAR) : WCHAR :=
  if (65 <=? c) && (c <=? 90) then c + 32 else c.

Fixpoint wcsicmp_eq (s t : wstring) : bool :=
  match s, t with
  | [], [] => true
  | c :: s', d :: t' => (towlower c =? towlower d) && wcsicmp_eq s' t'
  | _, _ => false
  end.

Fixpoint wcs_eq (s t : wstring) : bool :=
  match s, t with
  | [], [] => true
  | c :: s', d :: t' => (c =? d) && wcs_eq s' t'
  | _, _ => false
  end.

(** Modelled from the spec: the wide [str::EqI] and [str::Eq] of StrUtil.cpp,
    with the same treatment of null strings as [EqI]. *)
Definition EqIW (s1 s2 : option wstring) : bool :=
  match s1, s2 with
  | None, None => true
  | Some s, Some t => wcsicmp_eq s t
  | _, _ => false
  end.

Definition EqW (s1 s2 : option wstring) : bool :=
  match s1, s2 with
  | None, None => true
  | Some s, Some t => wcs_eq s t
  | _, _ => false
  end.

(** Modelled from the spec: [str::TransChars] of StrUtil.cpp, which the spec
    describes as normalising path separators: every unit of [s] that occurs
    in [oldChars] is replaced by the unit at the same position of [newChars]. *)
Fixpoint trans_char (c : WCHAR) (oldChars newChars : wstring) : WCHAR :=
  match oldChars, newChars with
  | o :: os, n :: ns => if c =? o then n else trans_char c os ns
  | _, _ => c
  end.

Definition TransChars (s oldChars newChars : wstring) : wstring :=
  map (fun c => trans_char c oldChars newChars) s.

(** ** unrar.dll, as seen through its exported procedures (lines 297-363) *)

Definition RAR_DLL_VERSION : Z := 6.
Definition RAR_OM_EXTRACT : Z := 1.
Definition RAR_SKIP : Z := 0.
Definition RAR_TEST : Z := 1.
Definition UCM_PROCESSDATA : Z := 1.

(** The fields of [RARHeaderDataEx] that the file reads. *)
Record RARHeaderDataEx := {
  FileNameW : wstring;
  UnpSize : Z;        (* unsigned int *)
  UnpSizeHigh : Z     (* unsigned int *)
}.

(** One member of a RAR archive as the library walks it: its header, the
    callback messages [RARProcessFile] sends while testing it (message code
    and data chunk), and the code that test ends with. *)
Record RarMember := {
  member_header : RARHeaderDataEx;
  member_messages : list (Z * list byte);
  member_test_code : Z
}.

(** An open archive handle [hArc]: the members not yet passed, and whether
    the walk ends at a broken header rather than at the end of the archive. *)
Record HANDLE := {
  members_ahead : list RarMember;
  ends_broken : bool
}.

Definition ERAR_END_ARCHIVE : Z := 10.
Definition ERAR_BAD_DATA : Z := 12.
Definition ERAR_UNKNOWN : Z := 21.

(** The non-zero code [RARReadHeaderEx] gives once the members are used up. *)
Definition end_code (hArc : HANDLE) : Z :=
  if ends_broken hArc then ERAR_BAD_DATA else ERAR_END_ARCHIVE.

(** The loaded library: [RARGetDllVersion] and [RAROpenArchiveEx], which
    yields a handle (or null) and [OpenResult]. *)
Record UnrarLib := {
  RARGetDllVersion : Z;
  RAROpenArchiveEx : wstring -> Z -> option HANDLE * Z
}.

(** ** The world around the archive handle *)

(** Calls that leave the class: into the decoder and into the allocator. *)
Inductive event :=
| EvOpen (ok : bool)                 (* opener_(data) *)
| EvParse (ok : bool)                (* ar_parse_entry *)
| EvSeek (pos : Z) (ok : bool)       (* ar_parse_entry_at *)
| EvUncompress (n : Z) (ok : bool)   (* ar_entry_uncompress *)
| EvComment (n : Z)                  (* ar_get_global_comment *)
| EvMalloc (n : Z) (ok : bool).      (* malloc *)

Record World := {
  junk : nat -> byte;               (* what fresh memory happens to hold *)
  can_alloc : Z -> bool;            (* whether a request of that size is met *)
  calls : list event;               (* calls made so far, latest first *)
  unrar_installed : option UnrarLib;  (* unrar.dll next to the executable *)
  unrar_procs : option UnrarLib     (* the static procedure pointers *)
}.

Definition log (e : event) (w : World) : World :=
  {| junk := junk w; can_alloc := can_alloc w; calls := e :: calls w;
     unrar_installed := unrar_installed w; unrar_procs := unrar_procs w |}.

Definition set_unrar_procs (p : option UnrarLib) (w : World) : World :=
  {| junk := junk w; can_alloc := can_alloc w; calls := calls w;
     unrar_installed := unrar_installed w; unrar_procs := p |}.

(** [malloc(n)]: null when the request is not met, otherwise [n] bytes of
    whatever the memory held. *)
Definition malloc (n : Z) (w : World) : option (list byte) * World :=
  if can_alloc w n
  then (Some (map (junk w) (seq 0 (Z.to_nat n))), log (EvMalloc n true) w)
  else (None, log (EvMalloc n false) w).

(** Modelled from the spec: [str::Str<char>::AppendChecked] of BaseUtil is
    not in the file; it appends [count] bytes and reports false, leaving the
    string alone, when the grown string cannot be allocated. *)
Definition AppendChecked (w : World) (data src : list byte) (count : Z)
  : bool * list byte :=
  if can_alloc w (Z.of_nat (length data) + count)
  then (true, data ++ take (Z.to_nat count) src)
  else (false, data).

(** ** UnRarDll *)

(** The class has no data members (lines 22-28). *)
Inductive UnRarDll := mkUnRarDll.

(** [UnRarDll::UnRarDll] (lines 365-390): unless the procedures are loaded
    already, load them from the library if it is there. *)
Definition UnRarDll_ctor (w : World) : UnRarDll * World :=
  match unrar_procs w with
  | Some _ => (mkUnRarDll, w)
  | None =>
    match unrar_installed w with
    | None => (mkUnRarDll, w)
    | Some lib => (mkUnRarDll, set_unrar_procs (Some lib) w)
    end
  end.

(** The guard both methods start with:
    [!RARGetDllVersion || RARGetDllVersion() < RAR_DLL_VERSION || !rarPath]. *)
Definition unrar_usable (w : World) (rarPath : option wstring)
  : option (UnrarLib * wstring) :=
  match unrar_procs w with
  | None => None
  | Some lib =>
    if RARGetDllVersion lib <? RAR_DLL_VERSION then None
    else match rarPath with
         | None => None
         | Some p => Some (lib, p)
         end
  end.

(** The loop of [UnRarDll::ExtractFilenames] (lines 405-416).  While members
    are ahead [RARReadHeaderEx] returns 0 and fills the header, and
    [RARProcessFile(RAR_SKIP)] moves past the member; with none ahead
    [RARReadHeaderEx] returns the end code and the loop breaks. *)
Fixpoint ExtractFilenames_loop (ahead : list RarMember) (idx : nat)
    (filenames : list wstring) : outcome (list wstring) :=
  match ahead with
  | [] => Returned filenames
  | m :: rest =>
    let name := TransChars (FileNameW (member_header m)) (L "\") (L "/") in
    if Nat.eqb (length filenames) idx
    then ExtractFilenames_loop rest (S idx) (filenames ++ [name])
    else match filenames !! idx with
         | None => Crashed                       (* filenames.at(idx) out of range *)
         | Some known =>
           if negb (EqW (Some known) (Some name))
           then Crashed                          (* CrashIf *)
           else ExtractFilenames_loop rest (S idx) filenames
         end
  end.

(** [UnRarDll::ExtractFilenames] (lines 392-420). *)
Definition ExtractFilenames (w : World) (rarPath : option wstring)
    (filenames : list wstring) : outcome (bool * list wstring) :=
  match unrar_usable w rarPath with
  | None => Returned (false, filenames)
  | Some (lib, p) =>
    match RAROpenArchiveEx lib p RAR_OM_EXTRACT with
    | (None, _) => Returned (false, filenames)
    | (Some hArc, OpenResult) =>
      if negb (OpenResult =? 0) then Returned (false, filenames)
      else match ExtractFilenames_loop (members_ahead hArc) 0 filenames with
           | Returned names => Returned (true, names)
           | Crashed => Crashed
           | Spinning => Spinning
           end
    end
  end.

(** [unrarCallback] (lines 422-428); [userData] is the string the chunks are
    appended to, or null. *)
Definition unrarCallback (w : World) (msg : Z) (userData : option (list byte))
    (rarBuffer : list byte) (bytesProcessed : Z) : Z * option (list byte) :=
  match userData with
  | None => (-1, None)
  | Some data =>
    if negb (UCM_PROCESSDATA =? msg) then (-1, Some data)
    else let '(ok, data') := AppendChecked w data rarBuffer bytesProcessed in
         (if ok then 1 else -1, Some data')
  end.

(** [RARProcessFile(hArc, RAR_TEST, ...)] on one member: the library sends
    the member's messages to the callback in turn, gives up with a non-zero
    code as soon as the callback answers -1, and otherwise ends with the
    member's own code. *)
Fixpoint RARProcessFile_test (w : World) (msgs : list (Z * list byte))
    (code : Z) (data : list byte) : Z * list byte :=
  match msgs with
  | [] => (code, data)
  | (msg, chunk) :: rest =>
    match unrarCallback w msg (Some data) chunk (Z.of_nat (length chunk)) with
    | (r, Some data') =>
      if r =? -1 then (ERAR_UNKNOWN, data')
      else RARProcessFile_test w rest code data'
    | (_, None) => (ERAR_UNKNOWN, data)
    end
  end.

(** The header walk of [UnRarDll::GetFileByName] (lines 449-457): the result
    code and, when it is 0, the member whose name matched. *)
Fixpoint GetFileByName_find (ahead : list RarMember) (end_code : Z)
    (filename : option wstring) : Z * option RarMember :=
  match ahead with
  | [] => (end_code, None)
  | m :: rest =>
    let name := TransChars (FileNameW (member_header m)) (L "\") (L "/") in
    if EqIW (Some name) filename then (0, Some m)
    else GetFileByName_find rest end_code filename
  end.

(** [UnRarDll::GetFileByName] (lines 430-480): the returned buffer (or null)
    and the value stored through [len] (when [len] is given and the call
    succeeds). *)
Definition GetFileByName (w : World) (rarPath filename : option wstring)
    (len : bool) : option (list byte) * option Z :=
  match unrar_usable w rarPath with
  | None => (None, None)
  | Some (lib, p) =>
    let data : list byte := [] in
    match RAROpenArchiveEx lib p RAR_OM_EXTRACT with
    | (None, _) => (None, None)
    | (Some hArc, OpenResult) =>
      if negb (OpenResult =? 0) then (None, None)
      else
        let '(res, found) :=
          GetFileByName_find (members_ahead hArc) (end_code hArc) filename in
        let '(res, data) :=
          match found with
          | Some m =>
            if res =? 0 then
              let rarHeader := member_header m in
              let '(res, data) :=
                if negb (UnpSizeHigh rarHeader =? 0) then (1, data)
                else
                  let '(res, data) :=
                    RARProcessFile_test w (member_messages m)
                                        (member_test_code m) data in
                  if negb (UnpSize rarHeader =? Z.of_nat (length data))
                  then (1, data) else (res, data) in
              (* zero-terminate for convenience *)
              let '(ok, data) := AppendChecked w data [x00; x00; x00] 3 in
              (if negb ok then 1 else res, data)
            else (res, data)
          | None => (res, data)
          end in
        if negb (res =? 0) then (None, None)
        else (Some data, if len then Some (Z.of_nat (length data) - 2) else None)
    end
  end.

(** ** The decoder interface (unarr.h) *)

(** What the file asks of a decoder handle [ar_archive*].  Calls that move
    the handle return the handle as it is afterwards.  The stream behind a
    handle is finite: [ar_entries_left] bounds the entries still ahead, and
    every successful [ar_parse_entry] lowers it. *)
Class Codec (ar_archive : Type) := {
  ar_at_eof : ar_archive -> bool;
  ar_parse_entry : ar_archive -> bool * ar_archive;
  ar_entry_get_name : ar_archive -> option string;
  ar_entry_get_size : ar_archive -> Z;
  ar_entry_get_offset : ar_archive -> Z;
  ar_entry_get_filetime : ar_archive -> Z;
  ar_parse_entry_at : ar_archive -> Z -> bool * ar_archive;
  (* the bytes written to the caller's buffer *)
  ar_entry_uncompress : ar_archive -> Z -> bool * list byte * ar_archive;
  (* [buffer] null or not, [count]; the returned count and the bytes written *)
  ar_get_global_comment : ar_archive -> bool -> Z -> Z * list byte * ar_archive;
  ar_entries_left : ar_archive -> nat;
  ar_parse_entry_advances : forall ar ar',
    ar_parse_entry ar = (true, ar') ->
    (ar_entries_left ar' < ar_entries_left ar)%nat
}.

(** ** Archive *)

Inductive Format := Zip | Rar | SevenZip | Tar.

Definition Format_is_Rar (f : Format) : bool :=
  match f with Rar => true | _ => false end.

(** [Archive::FileInfo].  [name] is a string view: [None] stands for a view
    whose [data()] is null. *)
Record FileInfo := {
  fileId : Z;                  (* size_t *)
  name : option string;
  fileTime : Z;
  fileSizeUncompressed : Z;    (* size_t *)
  filePos : Z
}.

Section Archive.

Context (bld : Build).
Context {ar_stream ar_archive : Type} `{!Codec ar_archive}.

Record Archive := {
  format : Format;
  opener_ : ar_stream -> option ar_archive;
  data_ : option ar_stream;
  ar_ : option ar_archive;
  fileInfos_ : list FileInfo;
  fallback : option UnRarDll
}.

Definition set_data_ (d : option ar_stream) (a : Archive) : Archive :=
  {| format := format a; opener_ := opener_ a; data_ := d; ar_ := ar_ a;
     fileInfos_ := fileInfos_ a; fallback := fallback a |}.

Definition set_ar_ (h : option ar_archive) (a : Archive) : Archive :=
  {| format := format a; opener_ := opener_ a; data_ := data_ a; ar_ := h;
     fileInfos_ := fileInfos_ a; fallback := fallback a |}.

Definition set_fileInfos_ (l : list FileInfo) (a : Archive) : Archive :=
  {| format := format a; opener_ := opener_ a; data_ := data_ a; ar_ := ar_ a;
     fileInfos_ := l; fallback := fallback a |}.

Definition set_fallback (f : option UnRarDll) (a : Archive) : Archive :=
  {| format := format a; opener_ := opener_ a; data_ := data_ a; ar_ := ar_ a;
     fileInfos_ := fileInfos_ a; fallback := f |}.

(** [Archive::Archive] (lines 41-43); the other members start out null and
    the table empty. *)
Definition Archive_ctor (opener : ar_stream -> option ar_archive)
    (format : Format) : Archive :=
  {| format := format; opener_ := opener; data_ := None; ar_ := None;
     fileInfos_ := []; fallback := None |}.

(** [Archive::OpenUnrarFallback] (lines 483-490). *)
Definition OpenUnrarFallback (a : Archive) (w : World) : bool * Archive * World :=
  if ENABLE_UNRARDLL_FALLBACK bld then
    let '(dll, w) := UnRarDll_ctor w in
    (false, set_fallback (Some dll) a, w)
  else (false, a, w).

(** [fileInfos_.push_back(i)]: [None] when the vector is at its largest
    length and the call throws. *)
Definition push_back (l : list FileInfo) (i : FileInfo) : option (list FileInfo) :=
  if Z.of_nat (length l) <? vector_max_size bld then Some (l ++ [i]) else None.

(** The loop of [Archive::Open] (lines 58-74), run for at most [fuel]
    iterations.  Returns the handle and the table as the loop leaves them. *)
Fixpoint parse_entries (fuel : nat) (ar : ar_archive) (fileId : Z)
    (infos : list FileInfo) (w : World)
    : outcome (ar_archive * list FileInfo * World) :=
  match fuel with
  | O => Spinning
  | S fuel' =>
    let '(ok, ar) := ar_parse_entry ar in
    let w := log (EvParse ok) w in
    if ok then
      let name := match ar_entry_get_name ar with
                  | Some n => n
                  | None => EmptyString
                  end in
      let i := {| fileId := fileId;
                  fileSizeUncompressed := to_size_t bld (ar_entry_get_size ar);
                  filePos := ar_entry_get_offset ar;
                  fileTime := ar_entry_get_filetime ar;
                  name := Some name |} in
      match push_back infos i with
      | None => Crashed
      | Some infos => parse_entries fuel' ar (to_size_t bld (fileId + 1)) infos w
      end
    else Returned (ar, infos, w)
  end.

(** [Archive::Open] (lines 45-76).  The loop gets one iteration more than
    the decoder has entries left, which is enough for it to be left
    ([Open_leaves] below). *)
Definition Open (a : Archive) (data : option ar_stream) (w : World)
    : outcome (bool * Archive * World) :=
  let a := set_data_ data a in
  match data with
  | None => Returned (false, a, w)
  | Some d =>
    let h := opener_ a d in
    let a := set_ar_ h a in
    let w := log (EvOpen (bool_decide (is_Some h))) w in
    match h with
    | Some ar =>
      if ar_at_eof ar then
        if Format_is_Rar (format a) then Returned (OpenUnrarFallback a w)
        else Returned (false, a, w)
      else
        match parse_entries (S (ar_entries_left ar)) ar 0 (fileInfos_ a) w with
        | Returned (ar, infos, w) =>
          Returned (true, set_fileInfos_ infos (set_ar_ (Some ar) a), w)
        | Crashed => Crashed
        | Spinning => Spinning
        end
    | None =>
      if Format_is_Rar (format a) then Returned (OpenUnrarFallback a w)
      else Returned (false, a, w)
    end
  end.

(** [getFileIdByName] (lines 83-90). *)
Fixpoint getFileIdByName (fileInfos : list FileInfo) (name' : option string) : Z :=
  match fileInfos with
  | [] => SIZE_MAX bld                       (* (size_t)-1 *)
  | fileInfo :: rest =>
    if EqI (name fileInfo) name' then fileId fileInfo
    else getFileIdByName rest name'
  end.

(** [Archive::GetFileInfos] (lines 92-94). *)
Definition GetFileInfos (a : Archive) : list FileInfo := fileInfos_ a.

(** [Archive::GetFileId] (lines 96-98). *)
Definition GetFileId (a : Archive) (fileName : option string) : Z :=
  getFileIdByName (fileInfos_ a) fileName.

(** [Archive::GetFileDataById] (lines 112-145): the buffer (or null), the
    value stored through [len] (when [len] is given and the call succeeds),
    and the handle afterwards. *)
Definition GetFileDataById (a : Archive) (fileId' : Z) (len : bool) (w : World)
    : outcome (option (list byte) * option Z * Archive * World) :=
  match ar_ a with
  | None => Returned (None, None, a, w)
  | Some ar =>
    if Z.of_nat (length (fileInfos_ a)) <=? fileId'
    then Returned (None, None, a, w)
    else
      match fileInfos_ a !! Z.to_nat fileId' with
      | None => Crashed                          (* read outside the vector *)
      | Some fileInfo =>
        if negb (fileId fileInfo =? fileId') then Crashed     (* CrashIf *)
        else
          let filePos' := filePos fileInfo in
          let '(ok, ar) := ar_parse_entry_at ar filePos' in
          let a := set_ar_ (Some ar) a in
          let w := log (EvSeek filePos' ok) w in
          if negb ok then Returned (None, None, a, w)
          else
            let size := fileSizeUncompressed fileInfo in
            if SIZE_MAX bld - 3 <? size then Returned (None, None, a, w)
            else
              let '(data, w) := malloc (to_size_t bld (size + 3)) w in
              match data with
              | None => Returned (None, None, a, w)
              | Some data =>
                let '(ok, bytes, ar) := ar_entry_uncompress ar size in
                let a := set_ar_ (Some ar) a in
                let w := log (EvUncompress size ok) w in
                if negb ok then Returned (None, None, a, w)
                else
                  let data := store_bytes data bytes (Z.to_nat size) in
                  (* zero-terminate for convenience *)
                  let data := <[Z.to_nat size := x00]> data in
                  let data := <[Z.to_nat (size + 1) := x00]> data in
                  let data := <[Z.to_nat (size + 2) := x00]> data in
                  Returned (Some data, if len then Some size else None, a, w)
              end
      end
  end.

(** [Archive::GetFileDataByName] (lines 107-110). *)
Definition GetFileDataByName (a : Archive) (fileName : option string)
    (len : bool) (w : World)
    : outcome (option (list byte) * option Z * Archive * World) :=
  let fileId' := getFileIdByName (fileInfos_ a) fileName in
  GetFileDataById a fileId' len w.

(** [Archive::GetComment] (lines 147-163). *)
Definition GetComment (a : Archive) (len : bool) (w : World)
    : outcome (option (list byte) * option Z * Archive * World) :=
  match ar_ a with
  | None => Returned (None, None, a, w)
  | Some ar =>
    let '(n, _, ar) := ar_get_global_comment ar false 0 in
    let commentLen := to_size_t bld n in
    let a := set_ar_ (Some ar) a in
    let w := log (EvComment 0) w in
    if (0 =? commentLen) || (SIZE_MAX bld =? commentLen)
    then Returned (None, None, a, w)
    else
      let '(comment, w) := malloc (to_size_t bld (commentLen + 1)) w in
      match comment with
      | None => Returned (None, None, a, w)
      | Some comment =>
        let '(n, bytes, ar) := ar_get_global_comment ar true commentLen in
        let read := to_size_t bld n in
        let a := set_ar_ (Some ar) a in
        let w := log (EvComment commentLen) w in
        if negb (read =? commentLen) then Returned (None, None, a, w)
        else
          let comment := store_bytes comment bytes (Z.to_nat commentLen) in
          let comment := <[Z.to_nat commentLen := x00]> comment in
          Returned (Some comment, if len then Some commentLen else None, a, w)
      end
  end.

End Archive.

Arguments Archive : clear implicits.
Arguments Archive_ctor {ar_stream ar_archive} opener format.

(** ** Opening by path (lines 167-215) *)

(** What the factories reach outside the file: [file::OpenFILE], which
    yields null when the file cannot be opened, [ar_open], which wraps a
    (possibly null) [FILE*] into a stream, and the four unarr openers. *)
Record Unarr (FILE ar_stream ar_archive : Type) := {
  OpenFILE : string -> option FILE;
  ar_open : option FILE -> option ar_stream;
  ar_open_zip_archive : ar_stream -> bool -> option ar_archive;
  ar_open_7z_archive : ar_stream -> option ar_archive;
  ar_open_tar_archive : ar_stream -> option ar_archive;
  ar_open_rar_archive : ar_stream -> option ar_archive
}.

Arguments OpenFILE {FILE ar_stream ar_archive} _ _.
Arguments ar_open {FILE ar_stream ar_archive} _ _.
Arguments ar_open_zip_archive {FILE ar_stream ar_archive} _ _ _.
Arguments ar_open_7z_archive {FILE ar_stream ar_archive} _ _.
Arguments ar_open_tar_archive {FILE ar_stream ar_archive} _ _.
Arguments ar_open_rar_archive {FILE ar_stream ar_archive} _ _.

Section Factories.

Context (bld : Build).
Context {FILE ar_stream ar_archive : Type} `{!Codec ar_archive}.
Context (U : Unarr FILE ar_stream ar_archive).

(** [ar_open_zip_archive_any] and [ar_open_zip_archive_deflated]
    (lines 167-172). *)
Definition ar_open_zip_archive_any (stream : ar_stream) : option ar_archive :=
  ar_open_zip_archive U stream false.

Definition ar_open_zip_archive_deflated (stream : ar_stream) : option ar_archive :=
  ar_open_zip_archive U stream true.

(** The static [open(Archive*, const char* )] (lines 174-178): the result of
    [Archive::Open] is dropped and the handle is returned in any case.  The
    overloads for a wide path and for an [IStream] (lines 181-190) differ
    only in how the stream is obtained. *)
Definition open (archive : Archive ar_stream ar_archive) (path : string)
    (w : World) : outcome (Archive ar_stream ar_archive * World) :=
  let f := OpenFILE U path in
  match Open bld archive (ar_open U f) w with
  | Returned (_, archive, w) => Returned (archive, w)
  | Crashed => Crashed
  | Spinning => Spinning
  end.

(** [OpenZipArchive] (lines 193-200). *)
Definition OpenZipArchive (path : string) (deflatedOnly : bool) (w : World)
    : outcome (Archive ar_stream ar_archive * World) :=
  let opener := if deflatedOnly then ar_open_zip_archive_deflated
                else ar_open_zip_archive_any in
  let archive := Archive_ctor opener Zip in
  open archive path w.

(** [Open7zArchive] (lines 202-205). *)
Definition Open7zArchive (path : string) (w : World)
    : outcome (Archive ar_stream ar_archive * World) :=
  let archive := Archive_ctor (ar_open_7z_archive U) SevenZip in
  open archive path w.

(** [OpenTarArchive] (lines 207-210). *)
Definition OpenTarArchive (path : string) (w : World)
    : outcome (Archive ar_stream ar_archive * World) :=
  let archive := Archive_ctor (ar_open_tar_archive U) Tar in
  open archive path w.

(** [OpenRarArchive] (lines 212-215). *)
Definition OpenRarArchive (path : string) (w : World)
    : outcome (Archive ar_stream ar_archive * World) :=
  let archive := Archive_ctor (ar_open_rar_archive U) Rar in
  open archive path w.

(** The four factories under one name, to state what they share. *)
Inductive Factory := ZipFactory (deflatedOnly : bool) | SevenZipFactory
                   | TarFactory | RarFactory.

Definition factory_format (f : Factory) : Format :=
  match f with
  | ZipFactory _ => Zip
  | SevenZipFactory => SevenZip
  | TarFactory => Tar
  | RarFactory => Rar
  end.

Definition factory_opener (f : Factory) : ar_stream -> option ar_archive :=
  match f with
  | ZipFactory true => ar_open_zip_archive_deflated
  | ZipFactory false => ar_open_zip_archive_any
  | SevenZipFactory => ar_open_7z_archive U
  | TarFactory => ar_open_tar_archive U
  | RarFactory => ar_open_rar_archive U
  end.

Definition OpenArchive (f : Factory) (path : string) (w : World)
    : outcome (Archive ar_stream ar_archive * World) :=
  match f with
  | ZipFactory deflatedOnly => OpenZipArchive path deflatedOnly w
  | SevenZipFactory => Open7zArchive path w
  | TarFactory => OpenTarArchive path w
  | RarFactory => OpenRarArchive path w
  end.

End Factories.

Arguments Factory : clear implicits.

(** ** A decoder over a container held in memory

    An instance of the decoder interface, used to run the class on concrete
    containers: the members of the container in order, each with the offset
    token it is found at, and how the container ends. *)

Record Member := {
  m_name : option string;
  m_size : Z;
  m_offset : Z;
  m_filetime : Z;
  m_bytes : list byte
}.

Record MemArchive := {
  mem_at_eof : bool;             (* the handle's end-of-data flag *)
  mem_entry : option Member;     (* the current entry *)
  mem_ahead : list Member;       (* what ar_parse_entry will find next *)
  mem_all : list Member;         (* every member, for ar_parse_entry_at *)
  mem_clean_end : bool;          (* proper end (true) or a broken header (false) *)
  mem_comment : list byte
}.

Definition mem_move (t : MemArchive) (eof : bool) (e : option Member)
    (ahead : list Member) : MemArchive :=
  {| mem_at_eof := eof; mem_entry := e; mem_ahead := ahead;
     mem_all := mem_all t; mem_clean_end := mem_clean_end t;
     mem_comment := mem_comment t |}.

Definition mem_parse_entry (t : MemArchive) : bool * MemArchive :=
  match mem_ahead t with
  | [] => (false, mem_move t (mem_clean_end t) (mem_entry t) [])
  | e :: rest => (true, mem_move t false (Some e) rest)
  end.

Fixpoint mem_find (pos : Z) (l : list Member) : option (Member * list Member) :=
  match l with
  | [] => None
  | e :: rest => if m_offset e =? pos then Some (e, rest) else mem_find pos rest
  end.

Definition mem_parse_entry_at (t : MemArchive) (pos : Z) : bool * MemArchive :=
  match mem_find pos (mem_all t) with
  | Some (e, rest) => (true, mem_move t false (Some e) rest)
  | None => (false, mem_move t false (mem_entry t) (mem_ahead t))
  end.

Definition mem_entry_uncompress (t : MemArchive) (n : Z)
    : bool * list byte * MemArchive :=
  match mem_entry t with
  | Some e =>
    if n =? Z.of_nat (length (m_bytes e)) then (true, m_bytes e, t)
    else (false, [], t)
  | None => (false, [], t)
  end.

Definition mem_get_global_comment (t : MemArchive) (buffer : bool) (count : Z)
    : Z * list byte * MemArchive :=
  let size := Z.of_nat (length (mem_comment t)) in
  if buffer then (Z.min count size, take (Z.to_nat count) (mem_comment t), t)
  else (size, [], t).

Definition mem_field (f : Member -> Z) (t : MemArchive) : Z :=
  match mem_entry t with Some e => f e | None => 0 end.

#[export, refine] Instance MemCodec : Codec MemArchive := {|
  ar_at_eof := mem_at_eof;
  ar_parse_entry := mem_parse_entry;
  ar_entry_get_name := fun t => mem_entry t ≫= m_name;
  ar_entry_get_size := mem_field m_size;
  ar_entry_get_offset := mem_field m_offset;
  ar_entry_get_filetime := mem_field m_filetime;
  ar_parse_entry_at := mem_parse_entry_at;
  ar_entry_uncompress := mem_entry_uncompress;
  ar_get_global_comment := mem_get_global_comment;
  ar_entries_left := fun t => length (mem_ahead t)
|}.
Proof.
  intros t t'. unfold mem_parse_entry.
  destruct (mem_ahead t) as [|e rest]; [discriminate|].
  intros [= <-]. simpl. lia.
Defined.

(** A freshly opened handle on a container. *)
Definition mem_open (members : list Member) (clean_end : bool)
    (comment : list byte) : MemArchive :=
  {| mem_at_eof := false; mem_entry := None; mem_ahead := members;
     mem_all := members; mem_clean_end := clean_end; mem_comment := comment |}.

(** The stream of such a container is the container itself, or nothing the
    opener recognises. *)
Definition mem_opener (s : option MemArchive) : option MemArchive := s.

(** ** Concrete builds, worlds and containers *)

Definition win64 : Build := {| arch := x64; OS_WIN := true |}.
Definition win32 : Build := {| arch := x86; OS_WIN := true |}.

Definition bytes_hello : list byte := [x68; x65; x6c; x6c; x6f].

Definition member_a : Member :=
  {| m_name := Some "a.txt"%string; m_size := 5; m_offset := 30;
     m_filetime := 1420070400; m_bytes := bytes_hello |}.

Definition member_c : Member :=
  {| m_name := Some "b/c.bin"%string; m_size := 0; m_offset := 71;
     m_filetime := 1420070401; m_bytes := [] |}.

(** Unnamed, and declaring a size two short of [SIZE_MAX] on a 64-bit build. *)
Definition member_huge : Member :=
  {| m_name := None; m_size := 2 ^ 64 - 2; m_offset := 112;
     m_filetime := 0; m_bytes := [] |}.

(** A RAR archive of one member, [dir\a.txt] holding [hello] in two chunks. *)
Definition rar_a : RarMember :=
  {| member_header := {| FileNameW := L "dir\a.txt"; UnpSize := 5; UnpSizeHigh := 0 |};
     member_messages := [(UCM_PROCESSDATA, [x68; x65]); (UCM_PROCESSDATA, [x6c; x6c; x6f])];
     member_test_code := 0 |}.

Definition rar_b : RarMember :=
  {| member_header := {| FileNameW := L "dir\sub\b.txt"; UnpSize := 0; UnpSizeHigh := 0 |};
     member_messages := [];
     member_test_code := 0 |}.

Definition unrar6 : UnrarLib :=
  {| RARGetDllVersion := 6;
     RAROpenArchiveEx := fun _ _ =>
       (Some {| members_ahead := [rar_a; rar_b]; ends_broken := false |}, 0) |}.

(** A world where every request for memory is met and fresh memory holds
    [0xcd], without and with unrar.dll installed. *)
Definition world0 : World :=
  {| junk := fun _ => xcd; can_alloc := fun _ => true; calls := [];
     unrar_installed := None; unrar_procs := None |}.

Definition world_unrar : World :=
  {| junk := fun _ => xcd; can_alloc := fun _ => true; calls := [];
     unrar_installed := Some unrar6; unrar_procs := None |}.

Definition world_unrar_loaded : World := set_unrar_procs (Some unrar6) world_unrar.

(** Streams: two members and a proper end; one member and then a broken
    header; no member at all; a handle that is at end-of-data as soon as it
    is opened; a member of enormous declared size; and a stream the opener
    does not recognise. *)
Definition zip_stream : option MemArchive := Some (mem_open [member_a; member_c] true []).
Definition broken_stream : option MemArchive := Some (mem_open [member_a] false []).
Definition empty_stream : option MemArchive := Some (mem_open [] true []).
Definition eof_stream : option MemArchive :=
  Some (mem_move (mem_open [] true []) true None []).
Definition huge_stream : option MemArchive := Some (mem_open [member_a; member_huge] true []).
Definition no_stream : option MemArchive := None.

Definition new_zip : Archive (option MemArchive) MemArchive := Archive_ctor mem_opener Zip.
Definition new_rar : Archive (option MemArchive) MemArchive := Archive_ctor mem_opener Rar.

(** The handle [Open] leaves, and the world after it. *)
Definition after_Open (bld : Build) (a : Archive (option MemArchive) MemArchive)
    (s : option MemArchive) (w : World)
    : Archive (option MemArchive) MemArchive * World :=
  match Open bld a (Some s) w with
  | Returned (_, a', w') => (a', w')
  | _ => (a, w)
  end.

Definition zip_opened := Eval vm_compute in fst (after_Open win64 new_zip zip_stream world0).
Definition zip_opened_world := Eval vm_compute in snd (after_Open win64 new_zip zip_stream world0).
Definition huge_opened := Eval vm_compute in fst (after_Open win64 new_zip huge_stream world0).

(** The records [Open] makes of the members on a 64-bit build. *)
Definition record_a : FileInfo :=
  {| fileId := 0; name := Some "a.txt"%string; fileTime := 1420070400;
     fileSizeUncompressed := 5; filePos := 30 |}.

Definition record_c : FileInfo :=
  {| fileId := 1; name := Some "b/c.bin"%string; fileTime := 1420070401;
     fileSizeUncompressed := 0; filePos := 71 |}.

Definition record_huge : FileInfo :=
  {| fileId := 1; name := Some EmptyString; fileTime := 0;
     fileSizeUncompressed := 2 ^ 64 - 2; filePos := 112 |}.

(** A file system with two archives, [two.zip] with the two members and
    [note.zip] with one member and the global comment [hi]; a Zip opener that
    takes any container but, when asked for deflated entries only, none. *)
Definition mem_unarr : Unarr MemArchive (option MemArchive) MemArchive :=
  {| OpenFILE := fun path =>
       if String.eqb path "two.zip" then Some (mem_open [member_a; member_c] true [])
       else if String.eqb path "note.zip" then Some (mem_open [member_a] true [x68; x69])
       else None;
     ar_open := fun f => match f with Some c => Some (Some c) | None => None end;
     ar_open_zip_archive := fun s deflatedOnly => if deflatedOnly then None else s;
     ar_open_7z_archive := mem_opener;
     ar_open_tar_archive := mem_opener;
     ar_open_rar_archive := mem_opener |}.

Definition note_opened :=
  Eval vm_compute in
    fst (after_Open win64 new_zip (Some (mem_open [member_a] true [x68; x69])) world0).

(** A RAR archive whose only member declares 9 bytes and delivers 5. *)
Definition rar_short : RarMember :=
  {| member_header := {| FileNameW := L "short.bin"; UnpSize := 9; UnpSizeHigh := 0 |};
     member_messages := [(UCM_PROCESSDATA, bytes_hello)];
     member_test_code := 0 |}.

Definition unrar6_short : UnrarLib :=
  {| RARGetDllVersion := 6;
     RAROpenArchiveEx := fun _ _ =>
       (Some {| members_ahead := [rar_short]; ends_broken := false |}, 0) |}.

Definition world_unrar_short : World := set_unrar_procs (Some unrar6_short) world0.

(** The handles the decoder passes through on the two-member container and
    on the container with a comment, and the handle after seeking [a.txt]. *)
Definition two_0 : MemArchive := mem_open [member_a; member_c] true [].
Definition two_1 : MemArchive := Eval vm_compute in snd (mem_parse_entry two_0).
Definition two_2 : MemArchive := Eval vm_compute in snd (mem_parse_entry two_1).
Definition two_3 : MemArchive := Eval vm_compute in snd (mem_parse_entry two_2).
Definition two_at_a : MemArchive := Eval vm_compute in snd (mem_parse_entry_at two_3 30).

Definition note_0 : MemArchive := mem_open [member_a] true [x68; x69].
Definition note_1 : MemArchive := Eval vm_compute in snd (mem_parse_entry note_0).
Definition note_2 : MemArchive := Eval vm_compute in snd (mem_parse_entry note_1).

(** The handles the decoder passes through on [broken_stream]. *)
Definition broken_0 : MemArchive := mem_open [member_a] false [].
Definition broken_1 : MemArchive := Eval vm_compute in snd (mem_parse_entry broken_0).
Definition broken_2 : MemArchive := Eval vm_compute in snd (mem_parse_entry broken_1).

Definition eof_0 : MemArchive := mem_move (mem_open [] true []) true None [].

(** ** Notions used to state the properties *)

(** The calls made between world [w] and the later world [w']. *)
Definition calls_since (w w' : World) : list event :=
  take (length (calls w') - length (calls w)) (calls w').

(** Requests made to the allocator. *)
Definition is_malloc (e : event) : bool :=
  match e with EvMalloc _ _ => true | _ => false end.

(** The separator normalisation of the fallback extractor, unit by unit. *)
Definition slash_of_backslash (c : WCHAR) : WCHAR := if c =? 92 then 47 else c.

Definition normalised_name (m : RarMember) : wstring :=
  TransChars (FileNameW (member_header m)) (L "\") (L "/").

(** Whether the names known from an earlier call agree, position by
    position, with the names derived now. *)
Fixpoint names_agree (known derived : list wstring) : bool :=
  match known, derived with
  | k :: ks, d :: ds => wcs_eq k d && names_agree ks ds
  | _, _ => true
  end.

(** The world after the given calls, latest first. *)
Definition log_all (es : list event) (w : World) : World := foldr log w es.

Section Parsing.

Context (bld : Build).
Context {ar_stream ar_archive : Type} `{!Codec ar_archive}.

(** The record [Archive::Open] makes of the entry the handle [ar] stands at,
    under id [id]. *)
Definition entry_record (id : Z) (ar : ar_archive) : FileInfo :=
  {| fileId := id;
     fileSizeUncompressed := to_size_t bld (ar_entry_get_size ar);
     filePos := ar_entry_get_offset ar;
     fileTime := ar_entry_get_filetime ar;
     name := Some (match ar_entry_get_name ar with
                   | Some n => n
                   | None => EmptyString
                   end) |}.

(** [parses ar l ar']: from [ar], [ar_parse_entry] succeeds [length l] times,
    standing at the handles [l] in turn, and then fails, leaving [ar']. *)
Inductive parses : ar_archive -> list ar_archive -> ar_archive -> Prop :=
| parses_stop ar ar' :
    ar_parse_entry ar = (false, ar') -> parses ar [] ar'
| parses_more ar ar1 l ar' :
    ar_parse_entry ar = (true, ar1) -> parses ar1 l ar' ->
    parses ar (ar1 :: l) ar'.

(** The records of the entries [l], numbered from [id] as [fileId++] does. *)
Fixpoint records (id : Z) (l : list ar_archive) : list FileInfo :=
  match l with
  | [] => []
  | ar :: l' => entry_record id ar :: records (to_size_t bld (id + 1)) l'
  end.

(** A table whose records sit at their own id, hold a [size_t] as size and a
    non-null name. *)
Definition table_ok (t : list FileInfo) : Prop :=
  forall (k : nat) fi, t !! k = Some fi ->
    fileId fi = Z.of_nat k /\
    0 <= fileSizeUncompressed fi <= SIZE_MAX bld /\
    is_Some (name fi).

(** The handle [Open] leaves when the loop was entered and left. *)
Definition opened_archive (a : Archive ar_stream ar_archive) (d : ar_stream)
    (arF : ar_archive) (infos : list FileInfo) : Archive ar_stream ar_archive :=
  set_fileInfos_ infos (set_ar_ (Some arF) (set_ar_ (opener_ a d) (set_data_ (Some d) a))).

End Parsing.

Arguments parses {ar_archive _} ar l ar'.

(** * Properties *)

(** ** Arithmetic of the build *)

Lemma size_bits_pos bld : 0 < size_bits bld.
Proof. unfold size_bits. destruct (arch bld); lia. Qed.

Lemma SIZE_MAX_cases bld :
  SIZE_MAX bld = 4294967295 \/ SIZE_MAX bld = 18446744073709551615.
Proof. unfold SIZE_MAX, size_bits. destruct (arch bld); [left | right]; reflexivity. Qed.

Lemma two_pow_size_bits bld : 2 ^ size_bits bld = SIZE_MAX bld + 1.
Proof. unfold SIZE_MAX. lia. Qed.

Lemma vector_max_size_lt bld :
  0 < vector_max_size bld /\ vector_max_size bld < SIZE_MAX bld.
Proof.
  unfold vector_max_size, sizeof_ptr, SIZE_MAX, size_bits.
  destruct (arch bld); vm_compute; split; reflexivity.
Qed.

Lemma to_size_t_id bld z : 0 <= z <= SIZE_MAX bld -> to_size_t bld z = z.
Proof.
  intros Hz. unfold to_size_t. rewrite two_pow_size_bits.
  apply Z.mod_small. lia.
Qed.

Lemma to_size_t_range bld z : 0 <= to_size_t bld z <= SIZE_MAX bld.
Proof.
  unfold to_size_t. rewrite two_pow_size_bits.
  pose proof (SIZE_MAX_cases bld) as HM.
  pose proof (Z.mod_pos_bound z (SIZE_MAX bld + 1)). lia.
Qed.

(** ** The call log *)

Lemma calls_since_refl w : calls_since w w = [].
Proof. unfold calls_since. rewrite Nat.sub_diag. reflexivity. Qed.

Lemma calls_since_app w w' (pre : list event) :
  calls w' = pre ++ calls w -> calls_since w w' = pre.
Proof.
  intros E. unfold calls_since. rewrite E, length_app.
  replace (length pre + length (calls w) - length (calls w))%nat
    with (length pre) by lia.
  apply take_app_length.
Qed.

Lemma calls_log e w : calls (log e w) = e :: calls w.
Proof. reflexivity. Qed.

Lemma malloc_calls n w r w' :
  malloc n w = (r, w') ->
  calls w' = EvMalloc n (bool_decide (is_Some r)) :: calls w.
Proof.
  unfold malloc. destruct (can_alloc w n); intros [= <- <-]; reflexivity.
Qed.

Lemma malloc_length n w data w' :
  malloc n w = (Some data, w') -> length data = Z.to_nat n.
Proof.
  unfold malloc. destruct (can_alloc w n); intros [= <- <-].
  rewrite length_map, length_seq. reflexivity.
Qed.

(** ** The parse loop *)

Lemma calls_log_all es w : calls (log_all es w) = es ++ calls w.
Proof. induction es as [|e es IH]; simpl; [reflexivity | now rewrite IH]. Qed.

Lemma log_all_repeat_shift e n w :
  log_all (repeat e n) (log e w) = log e (log_all (repeat e n) w).
Proof. induction n as [|n IH]; simpl; [reflexivity | now rewrite IH]. Qed.

Section ParseFacts.

Context (bld : Build).
Context {ar_stream ar_archive : Type} `{!Codec ar_archive}.

Lemma records_lookup (l : list ar_archive) : forall id (k : nat),
  0 <= id -> id + Z.of_nat (length l) <= SIZE_MAX bld + 1 ->
  records bld id l !! k = entry_record bld (id + Z.of_nat k) <$> l !! k.
Proof.
  induction l as [|ar l IH]; intros id k Hid Hlen; cbn [records].
  - reflexivity.
  - cbn [length] in Hlen. rewrite Nat2Z.inj_succ in Hlen.
    destruct k as [|k]; cbn [lookup list_lookup].
    + now rewrite Z.add_0_r.
    + destruct l as [|ar' l]; [reflexivity|].
      cbn [length] in Hlen, IH. rewrite Nat2Z.inj_succ in Hlen, IH.
      rewrite to_size_t_id by lia. rewrite IH by lia.
      replace (id + 1 + Z.of_nat k) with (id + Z.of_nat (S k)) by lia.
      reflexivity.
Qed.

Lemma records_length (l : list ar_archive) id : length (records bld id l) = length l.
Proof. revert id. induction l as [|ar l IH]; intros id; simpl; [|rewrite IH]; reflexivity. Qed.

Lemma parses_length ar (l : list ar_archive) ar' :
  parses ar l ar' -> (length l <= ar_entries_left ar)%nat.
Proof.
  induction 1 as [ar ar' E | ar ar1 l ar' E _ IH]; simpl.
  - lia.
  - apply ar_parse_entry_advances in E. lia.
Qed.

Lemma parses_total (ar : ar_archive) : exists l ar', parses ar l ar'.
Proof.
  remember (ar_entries_left ar) as n eqn:En.
  revert ar En. induction n as [n IH] using lt_wf_ind. intros ar ->.
  destruct (ar_parse_entry ar) as [[|] ar1] eqn:E.
  - destruct (IH (ar_entries_left ar1)
                 (ar_parse_entry_advances _ _ E) ar1 eq_refl) as (l & ar' & P).
    exists (ar1 :: l), ar'. now apply parses_more.
  - exists [], ar1. now apply parses_stop.
Qed.

Lemma parses_det ar (l1 l2 : list ar_archive) a1 a2 :
  parses ar l1 a1 -> parses ar l2 a2 -> l1 = l2 /\ a1 = a2.
Proof.
  intros P1. revert l2 a2.
  induction P1 as [ar ar' E | ar ar1 l ar' E _ IH]; intros l2 a2 P2;
    inversion P2; subst; try congruence.
  - split; congruence.
  - assert (ar1 = ar2) by congruence. subst.
    destruct (IH _ _ H0) as [-> ->]. split; reflexivity.
Qed.

(** With enough fuel the loop is left, never cut off. *)
Lemma parse_entries_leaves (fuel : nat) : forall ar id infos w,
  (ar_entries_left ar < fuel)%nat ->
  parse_entries bld fuel ar id infos w <> Spinning.
Proof.
  induction fuel as [|fuel IH]; intros ar id infos w Hf; [lia|].
  simpl. destruct (ar_parse_entry ar) as [[|] ar1] eqn:E; [|discriminate].
  destruct (push_back _ _ _); [|discriminate].
  apply IH. apply ar_parse_entry_advances in E. lia.
Qed.

(** What the loop returns: the table grown by the records of the entries
    parsed before [ar_parse_entry] first failed. *)
Lemma parse_entries_run ar (l : list ar_archive) arF :
  parses ar l arF -> forall fuel id infos w,
  (length l < fuel)%nat ->
  (l = [] \/ Z.of_nat (length infos + length l) <= vector_max_size bld) ->
  parse_entries bld fuel ar id infos w =
    Returned (arF, infos ++ records bld id l,
              log_all (EvParse false :: repeat (EvParse true) (length l)) w).
Proof.
  induction 1 as [ar ar' E | ar ar1 l ar' E _ IH]; intros fuel id infos w Hf Hfit;
    (destruct fuel as [|fuel]; [simpl in Hf; lia|]); simpl; rewrite E.
  - now rewrite app_nil_r.
  - destruct Hfit as [|Hfit]; [discriminate|]. simpl in Hfit.
    unfold push_back.
    destruct (Z.ltb_spec (Z.of_nat (length infos)) (vector_max_size bld)); [|lia].
    rewrite IH.
    + rewrite <- app_assoc. simpl.
      rewrite <- (log_all_repeat_shift (EvParse true)). reflexivity.
    + simpl in Hf. lia.
    + right. rewrite length_app. simpl. lia.
Qed.

Lemma parse_entries_inv (fuel : nat) : forall ar id infos w arF infos' w',
  parse_entries bld fuel ar id infos w = Returned (arF, infos', w') ->
  exists l, parses ar l arF /\ infos' = infos ++ records bld id l /\
    (l = [] \/ Z.of_nat (length infos') <= vector_max_size bld).
Proof.
  induction fuel as [|fuel IH]; intros ar id infos w arF infos' w' R; [discriminate|].
  simpl in R. destruct (ar_parse_entry ar) as [[|] ar1] eqn:E.
  - unfold push_back in R.
    destruct (Z.ltb_spec (Z.of_nat (length infos)) (vector_max_size bld)) as [Hlt|];
      [|discriminate].
    apply IH in R as (l & P & -> & Hfit).
    exists (ar1 :: l). split; [now apply parses_more|]. split.
    + rewrite <- app_assoc. reflexivity.
    + right. destruct Hfit as [-> | Hfit]; [|exact Hfit].
      simpl. rewrite app_nil_r, length_app. simpl. lia.
  - injection R as <- <- <-. exists []. split; [now apply parses_stop|].
    split; [now rewrite app_nil_r | now left].
Qed.

(** ** [Archive::Open] *)

(** [Open] is never cut off: the fuel it gives the loop is enough. *)
Lemma Open_leaves (a : Archive ar_stream ar_archive) data w :
  Open bld a data w <> Spinning.
Proof.
  unfold Open. destruct data as [d|]; [|discriminate].
  cbn [opener_ set_data_ set_ar_ format fileInfos_].
  destruct (opener_ a d) as [ar|].
  - destruct (ar_at_eof ar).
    + destruct (Format_is_Rar _); discriminate.
    + pose proof (parse_entries_leaves (S (ar_entries_left ar)) ar 0
                    (fileInfos_ a) (log (EvOpen (bool_decide (is_Some (Some ar)))) w)
                    (Nat.lt_succ_diag_r _)) as NS.
      destruct (parse_entries _ _ _ _ _ _) as [[[? ?] ?]| |]; congruence.
  - destruct (Format_is_Rar _); discriminate.
Qed.

(** Once the opened handle is not at end-of-data, [Open] returns true with
    the entries parsed before [ar_parse_entry] first failed. *)
Lemma Open_parsed (a : Archive ar_stream ar_archive) d ar l arF w :
  opener_ a d = Some ar -> ar_at_eof ar = false -> parses ar l arF ->
  (l = [] \/ Z.of_nat (length (fileInfos_ a) + length l) <= vector_max_size bld) ->
  Open bld a (Some d) w =
    Returned (true, opened_archive a d arF (fileInfos_ a ++ records bld 0 l),
              log_all (EvParse false :: repeat (EvParse true) (length l))
                      (log (EvOpen true) w)).
Proof.
  intros Ho He P Hfit. unfold Open, opened_archive.
  cbn [opener_ set_data_ set_ar_ format fileInfos_]. rewrite Ho, He.
  rewrite (parse_entries_run ar l arF P); [reflexivity | | exact Hfit].
  apply parses_length in P. lia.
Qed.

(** Conversely, a true result comes from the loop and nowhere else. *)
Lemma Open_true_inv (a : Archive ar_stream ar_archive) data w a' w' :
  Open bld a data w = Returned (true, a', w') ->
  exists d ar l arF,
    data = Some d /\ opener_ a d = Some ar /\ ar_at_eof ar = false /\
    parses ar l arF /\
    a' = opened_archive a d arF (fileInfos_ a ++ records bld 0 l) /\
    (l = [] \/ Z.of_nat (length (fileInfos_ a') ) <= vector_max_size bld).
Proof.
  unfold Open, OpenUnrarFallback. destruct data as [d|]; [|discriminate].
  cbn [opener_ set_data_ set_ar_ format fileInfos_].
  destruct (opener_ a d) as [ar|] eqn:Ho.
  - destruct (ar_at_eof ar) eqn:He.
    + destruct (Format_is_Rar _); [|discriminate].
      destruct (ENABLE_UNRARDLL_FALLBACK bld); [|discriminate].
      destruct (UnRarDll_ctor _); discriminate.
    + destruct (parse_entries _ _ _ _ _ _) as [[[arF infos] w1]| |] eqn:R;
        try discriminate.
      intros [= <- <-]. apply parse_entries_inv in R as (l & P & -> & Hfit).
      exists d, ar, l, arF. rewrite Ho. repeat split; try assumption; reflexivity.
  - destruct (Format_is_Rar _); [|discriminate].
    destruct (ENABLE_UNRARDLL_FALLBACK bld); [|discriminate].
    destruct (UnRarDll_ctor _); discriminate.
Qed.

End ParseFacts.

(** ** Extraction and the entry table *)

(** Case analysis on the next test of the code under study. *)
Ltac next_case :=
  match goal with
  | |- context [match ?x with _ => _ end] =>
      match type of x with
      | sumbool _ _ => destruct x
      | _ => destruct x eqn:?
      end
  end.

Section TableFacts.

Context (bld : Build).
Context {ar_stream ar_archive : Type} `{!Codec ar_archive}.

Implicit Type a : Archive ar_stream ar_archive.



(** The table of a handle opened right after construction. *)
Lemma Open_ctor_table opener fmt data w a' w' :
  Open bld (Archive_ctor (ar_stream := ar_stream) opener fmt) data w
    = Returned (true, a', w') ->
  exists d ar l arF,
    data = Some d /\ opener d = Some ar /\ ar_at_eof ar = false /\
    parses ar l arF /\ ar_ a' = Some arF /\
    Z.of_nat (length l) <= vector_max_size bld /\
    length (fileInfos_ a') = length l /\
    forall k : nat, fileInfos_ a' !! k = entry_record bld (Z.of_nat k) <$> l !! k.
Proof.
  intros R. apply Open_true_inv in R as (d & ar & l & arF & -> & Ho & He & P & -> & Hfit).
  cbn [Archive_ctor opener_ fileInfos_ opened_archive set_fileInfos_ app] in *.
  pose proof (vector_max_size_lt bld) as [Hpos Hlt].
  assert (Z.of_nat (length l) <= vector_max_size bld) as Hl.
  { destruct Hfit as [-> | Hfit]; [simpl; lia|].
    now rewrite records_length in Hfit. }
  exists d, ar, l, arF. repeat split; try assumption.
  - apply records_length.
  - intros k. rewrite records_lookup by lia. reflexivity.
Qed.

Lemma Open_ctor_table_ok opener fmt data w a' w' :
  Open bld (Archive_ctor (ar_stream := ar_stream) opener fmt) data w
    = Returned (true, a', w') ->
  table_ok bld (fileInfos_ a').
Proof.
  intros R. apply Open_ctor_table in R as (d & ar & l & arF & _ & _ & _ & _ & _ & _ & _ & Hk).
  intros k fi Hfi. rewrite Hk in Hfi.
  destruct (l !! k) as [ark|]; [|discriminate]. injection Hfi as <-.
  cbn [entry_record fileId fileSizeUncompressed name].
  split; [reflexivity|]. split; [apply to_size_t_range | eexists; reflexivity].
Qed.

End TableFacts.

Section Extraction.

Context (bld : Build).
Context {ar_stream ar_archive : Type} `{!Codec ar_archive}.

Implicit Type a : Archive ar_stream ar_archive.

Lemma store_bytes_length (buf src : list byte) (n : nat) :
  (n <= length buf)%nat -> length (store_bytes buf src n) = length buf.
Proof.
  intros Hn. unfold store_bytes. rewrite length_app, length_drop, length_take. lia.
Qed.

(** The three stores that zero-terminate a buffer of [n + 3] bytes. *)
Lemma zero_padding (data : list byte) (n : nat) :
  length data = (n + 3)%nat ->
  let data' := <[(n + 2)%nat := x00]> (<[(n + 1)%nat := x00]> (<[n := x00]> data)) in
  length data' = (n + 3)%nat /\
  data' !! n = Some x00 /\ data' !! (n + 1)%nat = Some x00 /\
  data' !! (n + 2)%nat = Some x00 /\
  take n data' = take n data.
Proof.
  intros Hl data'. subst data'. repeat split.
  - now rewrite !length_insert.
  - rewrite !list_lookup_insert_ne by lia.
    apply list_lookup_insert_eq. lia.
  - rewrite list_lookup_insert_ne by lia.
    apply list_lookup_insert_eq. rewrite length_insert. lia.
  - apply list_lookup_insert_eq. rewrite !length_insert. lia.
  - rewrite !take_insert_ge by lia. reflexivity.
Qed.

(** What a successful extraction returns, step by step. *)
Lemma GetFileDataById_success a id len w ar fi ar1 data0 w1 bytes ar2 :
  ar_ a = Some ar ->
  0 <= id -> fileInfos_ a !! Z.to_nat id = Some fi -> fileId fi = id ->
  ar_parse_entry_at ar (filePos fi) = (true, ar1) ->
  0 <= fileSizeUncompressed fi <= SIZE_MAX bld - 3 ->
  malloc (fileSizeUncompressed fi + 3) (log (EvSeek (filePos fi) true) w)
    = (Some data0, w1) ->
  ar_entry_uncompress ar1 (fileSizeUncompressed fi) = (true, bytes, ar2) ->
  let size := Z.to_nat (fileSizeUncompressed fi) in
  GetFileDataById bld a id len w =
    Returned (Some (<[(size + 2)%nat := x00]> (<[(size + 1)%nat := x00]>
                     (<[size := x00]> (store_bytes data0 bytes size)))),
              if len then Some (fileSizeUncompressed fi) else None,
              set_ar_ (Some ar2) (set_ar_ (Some ar1) a),
              log (EvUncompress (fileSizeUncompressed fi) true) w1).
Proof.
  intros Har Hid Hfi Hsame Hseek Hsize Hm Hu size. unfold GetFileDataById.
  rewrite Har.
  assert (Z.to_nat id < length (fileInfos_ a))%nat as Hlt
    by (apply lookup_lt_is_Some; eauto).
  destruct (Z.leb_spec (Z.of_nat (length (fileInfos_ a))) id); [lia|].
  rewrite Hfi, Hsame, Z.eqb_refl. cbn [negb]. rewrite Hseek. cbn [negb].
  destruct (Z.ltb_spec (SIZE_MAX bld - 3) (fileSizeUncompressed fi)); [lia|].
  pose proof (SIZE_MAX_cases bld).
  rewrite to_size_t_id by lia. rewrite Hm, Hu. cbn [negb].
  subst size. rewrite !Z2Nat.inj_add by lia. reflexivity.
Qed.

End Extraction.

(** ** Extraction by id *)

Section ExtractionClaims.

Context (bld : Build).
Context {ar_stream ar_archive : Type} `{!Codec ar_archive}.

Implicit Type a : Archive ar_stream ar_archive.

(** C2.  Take a handle with a decoder and a well-formed table, and an id in
    range, with record [fi].  When the decoder's seek to the record's
    position succeeds, the allocation of [size + 3] bytes is met (the size
    being at most [SIZE_MAX - 3]) and the decoder's decompression of [size]
    bytes succeeds, [GetFileDataById] returns a buffer (not null), the
    length it reports is exactly the recorded [fileSizeUncompressed], and
    the buffer holds three more bytes, at positions [size], [size + 1] and
    [size + 2], all zero and not counted in that length. *)
Theorem GetFileDataById_zero_padded a id len w ar fi ar1 bytes ar2 :
  table_ok bld (GetFileInfos a) -> ar_ a = Some ar ->
  0 <= id -> GetFileInfos a !! Z.to_nat id = Some fi ->
  fileSizeUncompressed fi <= SIZE_MAX bld - 3 ->
  ar_parse_entry_at ar (filePos fi) = (true, ar1) ->
  can_alloc w (fileSizeUncompressed fi + 3) = true ->
  ar_entry_uncompress ar1 (fileSizeUncompressed fi) = (true, bytes, ar2) ->
  let size := fileSizeUncompressed fi in
  exists data a' w',
    GetFileDataById bld a id len w
      = Returned (Some data, if len then Some size else None, a', w') /\
    Z.of_nat (length data) = size + 3 /\
    data !! Z.to_nat size = Some x00 /\
    data !! Z.to_nat (size + 1) = Some x00 /\
    data !! Z.to_nat (size + 2) = Some x00.
Proof.
  intros Hok Har Hid Hfi Hmax Hseek Halloc Hu size. unfold GetFileInfos in *.
  destruct (Hok _ _ Hfi) as (Hsame & [Hlo _] & _).
  rewrite Z2Nat.id in Hsame by assumption. fold size in Hlo, Hmax, Halloc, Hu.
  destruct (malloc (size + 3) (log (EvSeek (filePos fi) true) w)) as [data0 w1] eqn:M.
  assert (exists d0, data0 = Some d0) as [d0 ->].
  { revert M. unfold malloc. cbn [can_alloc log]. rewrite Halloc.
    intros [= <- <-]. eauto. }
  pose proof (malloc_length _ _ _ _ M) as Hl0.
  pose proof (GetFileDataById_success bld a id len w ar fi ar1 d0 w1 bytes ar2
                Har Hid Hfi Hsame Hseek (conj Hlo Hmax) M Hu) as R.
  cbv zeta in R. fold size in R.
  assert (length (store_bytes d0 bytes (Z.to_nat size)) = (Z.to_nat size + 3)%nat) as Hl.
  { rewrite store_bytes_length; lia. }
  destruct (zero_padding _ _ Hl) as (Hlen & Hz0 & Hz1 & Hz2 & _).
  cbv zeta in Hlen, Hz0, Hz1, Hz2.
  eexists _, _, _. split; [exact R|].
  rewrite !Z2Nat.inj_add by lia. change (Z.to_nat 1) with 1%nat.
  change (Z.to_nat 2) with 2%nat.
  split; [|split; [|split]]; try assumption.
  rewrite Hlen. lia.
Qed.

(** The same read off the call log: whenever a call of [GetFileDataById]
    made a successful [ar_parse_entry_at] and a successful
    [ar_entry_uncompress], it returned such a buffer. *)
Lemma GetFileDataById_logged_success a id len w fi r n a' w' :
  0 <= id -> GetFileInfos a !! Z.to_nat id = Some fi ->
  0 <= fileSizeUncompressed fi <= SIZE_MAX bld ->
  GetFileDataById bld a id len w = Returned (r, n, a', w') ->
  (exists pos, EvSeek pos true ∈ calls_since w w') ->
  (exists m, EvUncompress m true ∈ calls_since w w') ->
  let size := fileSizeUncompressed fi in
  exists data,
    r = Some data /\
    n = (if len then Some size else None) /\
    Z.of_nat (length data) = size + 3 /\
    data !! Z.to_nat size = Some x00 /\
    data !! Z.to_nat (size + 1) = Some x00 /\
    data !! Z.to_nat (size + 2) = Some x00.
Proof.
  intros Hid Hfi Hsz R _ [m Hu] size. unfold GetFileInfos in Hfi.
  unfold GetFileDataById in R. rewrite Hfi in R.
  destruct (ar_ a) as [ar|];
    [|injection R as <- <- <- <-; rewrite calls_since_refl in Hu; inversion Hu].
  destruct (Z.leb_spec (Z.of_nat (length (fileInfos_ a))) id);
    [injection R as <- <- <- <-; rewrite calls_since_refl in Hu; inversion Hu|].
  destruct (fileId fi =? id); [|discriminate]. cbn [negb] in R.
  destruct (ar_parse_entry_at ar (filePos fi)) as [[|] ar1]; cbn [negb] in R.
  2:{ injection R as <- <- <- <-.
      rewrite (calls_since_app _ _ [EvSeek (filePos fi) false]) in Hu by reflexivity.
      apply list_elem_of_singleton in Hu. discriminate. }
  fold size in R. destruct (Z.ltb_spec (SIZE_MAX bld - 3) size).
  { injection R as <- <- <- <-.
    rewrite (calls_since_app _ _ [EvSeek (filePos fi) true]) in Hu by reflexivity.
    apply list_elem_of_singleton in Hu. discriminate. }
  pose proof (SIZE_MAX_cases bld).
  rewrite to_size_t_id in R by lia.
  destruct (malloc (size + 3) _) as [[data0|] w1] eqn:M.
  2:{ injection R as <- <- <- <-. apply malloc_calls in M.
      rewrite (calls_since_app _ _ [EvMalloc (size + 3) false; EvSeek (filePos fi) true])
        in Hu by (rewrite M; reflexivity).
      repeat (apply elem_of_cons in Hu as [Hu|Hu]; [discriminate|]). inversion Hu. }
  pose proof (malloc_length _ _ _ _ M) as Hl0. apply malloc_calls in M.
  destruct (ar_entry_uncompress ar1 size) as [[[|] bytes] ar2]; cbn [negb] in R.
  2:{ injection R as <- <- <- <-.
      rewrite (calls_since_app _ _ [EvUncompress size false; EvMalloc (size + 3) true;
                                    EvSeek (filePos fi) true])
        in Hu by (cbn [calls log]; rewrite M; reflexivity).
      repeat (apply elem_of_cons in Hu as [Hu|Hu]; [discriminate|]). inversion Hu. }
  injection R as <- <- <- <-.
  assert (length (store_bytes data0 bytes (Z.to_nat size)) = (Z.to_nat size + 3)%nat) as Hl.
  { rewrite store_bytes_length; lia. }
  destruct (zero_padding _ _ Hl) as (Hlen & Hz0 & Hz1 & Hz2 & _).
  rewrite !Z2Nat.inj_add by lia. change (Z.to_nat 1) with 1%nat.
  change (Z.to_nat 2) with 2%nat.
  eexists. split; [reflexivity|]. split; [reflexivity|].
  split; [|split; [|split]]; try assumption.
  rewrite Hlen. lia.
Qed.

(** C10.  For an entry whose recorded size exceeds [SIZE_MAX - 3],
    [GetFileDataById] returns null, and no request reaches the allocator
    during the call: the size check comes before [malloc(size + 3)]. *)
Theorem GetFileDataById_size_overflow a id len w fi :
  0 <= id -> GetFileInfos a !! Z.to_nat id = Some fi -> fileId fi = id ->
  SIZE_MAX bld - 3 < fileSizeUncompressed fi ->
  exists a' w',
    GetFileDataById bld a id len w = Returned (None, None, a', w') /\
    Forall (fun e => is_malloc e = false) (calls_since w w').
Proof.
  intros Hid Hfi Hsame Hbig. unfold GetFileInfos in Hfi. unfold GetFileDataById.
  destruct (ar_ a) as [ar|].
  2:{ eexists _, _. split; [reflexivity|]. rewrite calls_since_refl. constructor. }
  assert (Z.to_nat id < length (fileInfos_ a))%nat as Hlt
    by (apply lookup_lt_is_Some; eauto).
  destruct (Z.leb_spec (Z.of_nat (length (fileInfos_ a))) id); [lia|].
  rewrite Hfi, Hsame, Z.eqb_refl. cbn [negb].
  destruct (ar_parse_entry_at ar (filePos fi)) as [[|] ar1]; cbn [negb].
  - destruct (Z.ltb_spec (SIZE_MAX bld - 3) (fileSizeUncompressed fi)); [|lia].
    eexists _, _. split; [reflexivity|].
    rewrite (calls_since_app _ _ [EvSeek (filePos fi) true]) by reflexivity.
    repeat constructor.
  - eexists _, _. split; [reflexivity|].
    rewrite (calls_since_app _ _ [EvSeek (filePos fi) false]) by reflexivity.
    repeat constructor.
Qed.

(** C6.  [GetFileDataById] and [GetComment] return null when the decoder
    handle is null, and [GetFileDataById] returns null for every id at or
    past the number of entries; the handle and the world come back as they
    were, so neither the decoder nor the table was touched.  For a handle
    that [Open] filled, this covers [(size_t)-1], and so every name that
    [GetFileId] does not find. *)
Theorem GetFileData_guards a id len w :
  (ar_ a = None ->
     GetFileDataById bld a id len w = Returned (None, None, a, w) /\
     GetComment bld a len w = Returned (None, None, a, w)) /\
  (Z.of_nat (length (GetFileInfos a)) <= id ->
     GetFileDataById bld a id len w = Returned (None, None, a, w)) /\
  (forall opener fmt data w0 w1,
     Open bld (Archive_ctor opener fmt) data w0 = Returned (true, a, w1) ->
     GetFileDataById bld a (SIZE_MAX bld) len w = Returned (None, None, a, w) /\
     forall fileName, GetFileId bld a fileName = SIZE_MAX bld ->
       GetFileDataByName bld a fileName len w = Returned (None, None, a, w)).
Proof.
  assert (forall i, Z.of_nat (length (fileInfos_ a)) <= i ->
            GetFileDataById bld a i len w = Returned (None, None, a, w)) as Hrange.
  { intros i Hi. unfold GetFileDataById. destruct (ar_ a); [|reflexivity].
    destruct (Z.leb_spec (Z.of_nat (length (fileInfos_ a))) i); [reflexivity | lia]. }
  split; [|split].
  - intros Hnull. unfold GetFileDataById, GetComment. rewrite Hnull. split; reflexivity.
  - apply Hrange.
  - intros opener fmt data w0 w1 R.
    apply Open_ctor_table in R as (_ & _ & l & _ & _ & _ & _ & _ & _ & Hl & Hlen & _).
    pose proof (vector_max_size_lt bld) as [_ Hmax].
    assert (Z.of_nat (length (fileInfos_ a)) <= SIZE_MAX bld) as Hs by lia.
    split; [now apply Hrange|].
    intros fileName Hmiss. unfold GetFileDataByName.
    unfold GetFileId in Hmiss. rewrite Hmiss. now apply Hrange.
Qed.


(** ** Lookup by name *)

Lemma stricmp_eq_lowercase (s t : string) :
  stricmp_eq s t = true <-> lowercase s = lowercase t.
Proof.
  revert t. induction s as [|c s IH]; intros [|d t]; simpl; split;
    try congruence; try discriminate.
  - intros [Hc Hs]%andb_true_iff. apply Ascii.eqb_eq in Hc. apply IH in Hs. congruence.
  - intros [= Hc Hs]. apply andb_true_iff. split; [now apply Ascii.eqb_eq | now apply IH].
Qed.

Lemma getFileIdByName_first (pre : list FileInfo) fi post fileName :
  Forall (fun f => EqI (name f) fileName = false) pre ->
  EqI (name fi) fileName = true ->
  getFileIdByName bld (pre ++ fi :: post) fileName = fileId fi.
Proof.
  induction 1 as [|f pre Hf _ IH]; intros Hhit; simpl.
  - now rewrite Hhit.
  - rewrite Hf. now apply IH.
Qed.

Lemma getFileIdByName_miss (t : list FileInfo) fileName :
  Forall (fun f => EqI (name f) fileName = false) t ->
  getFileIdByName bld t fileName = SIZE_MAX bld.
Proof.
  induction 1 as [|f t Hf _ IH]; simpl; [reflexivity|]. now rewrite Hf.
Qed.

(** C7.  [GetFileDataByName] is [GetFileDataById] at the id [GetFileId]
    finds.  [GetFileId] compares names without regard to ASCII case, returns
    the id of the first record of the table whose name matches, and returns
    [(size_t)-1] when none matches. *)
Theorem GetFileDataByName_composes a fileName len w :
  GetFileDataByName bld a fileName len w
    = GetFileDataById bld a (GetFileId bld a fileName) len w /\
  (forall s t, EqI (Some s) (Some t) = true <-> lowercase s = lowercase t) /\
  (forall pre fi post,
     GetFileInfos a = pre ++ fi :: post ->
     Forall (fun f => EqI (name f) fileName = false) pre ->
     EqI (name fi) fileName = true ->
     GetFileId bld a fileName = fileId fi) /\
  (Forall (fun f => EqI (name f) fileName = false) (GetFileInfos a) ->
     GetFileId bld a fileName = SIZE_MAX bld).
Proof.
  unfold GetFileId, GetFileInfos. split; [reflexivity|]. split; [|split].
  - intros s t. apply stricmp_eq_lowercase.
  - intros pre fi post E Hpre Hhit. rewrite E. now apply getFileIdByName_first.
  - apply getFileIdByName_miss.
Qed.

End ExtractionClaims.

(** ** What [Open] returns *)

Section OpenClaims.

Context (bld : Build).
Context {ar_stream ar_archive : Type} `{!Codec ar_archive}.

Implicit Type a : Archive ar_stream ar_archive.

Lemma UnRarDll_ctor_procs w :
  exists w', UnRarDll_ctor w = (mkUnRarDll, w') /\
    unrar_procs w' = match unrar_procs w with
                     | Some lib => Some lib
                     | None => unrar_installed w
                     end.
Proof.
  unfold UnRarDll_ctor.
  destruct (unrar_procs w) as [lib|] eqn:E; [|destruct (unrar_installed w) as [lib|]];
    eexists; (split; [reflexivity|]); try assumption; reflexivity.
Qed.

(** In general: for a Rar handle whose decoder opener returns null, or a
    handle already at end-of-data, [Open] returns false, with the
    table as it was, whether or not unrar.dll is there: where the fallback
    is compiled in, [OpenUnrarFallback] constructs the [UnRarDll] object,
    which loads the library's procedures if they are installed and not yet
    loaded, and stores it in the handle; elsewhere it does nothing. *)
Theorem Open_rar_fallback_false a d w :
  format a = Rar ->
  (opener_ a d = None \/ exists ar, opener_ a d = Some ar /\ ar_at_eof ar = true) ->
  exists a' w',
    Open bld a (Some d) w = Returned (false, a', w') /\
    GetFileInfos a' = GetFileInfos a /\
    (ENABLE_UNRARDLL_FALLBACK bld = true ->
       fallback a' = Some mkUnRarDll /\
       unrar_procs w' = match unrar_procs w with
                        | Some lib => Some lib
                        | None => unrar_installed w
                        end) /\
    (ENABLE_UNRARDLL_FALLBACK bld = false ->
       fallback a' = fallback a /\ unrar_procs w' = unrar_procs w).
Proof.
  intros Hrar Hfail.
  assert (Open bld a (Some d) w =
          Returned (OpenUnrarFallback bld (set_ar_ (opener_ a d) (set_data_ (Some d) a))
                      (log (EvOpen (bool_decide (is_Some (opener_ a d)))) w))) as ->.
  { unfold Open. cbn [opener_ set_data_ set_ar_ format]. rewrite Hrar. cbn [Format_is_Rar].
    destruct Hfail as [-> | (ar & -> & ->)]; reflexivity. }
  unfold OpenUnrarFallback.
  destruct (ENABLE_UNRARDLL_FALLBACK bld).
  - destruct (UnRarDll_ctor_procs (log (EvOpen (bool_decide (is_Some (opener_ a d)))) w))
      as (w' & -> & Hprocs).
    eexists _, _. split; [reflexivity|]. split; [reflexivity|].
    split; [intros _; split; [reflexivity | exact Hprocs] | discriminate].
  - eexists _, _. split; [reflexivity|]. split; [reflexivity|].
    split; [discriminate | intros _; split; reflexivity].
Qed.

(** C3 (as the code has it).  When the decoder fails on a broken header
    partway through the container ([ar_parse_entry] returns false and the
    handle is not at end-of-data), [Open] of a new handle leaves the loop and
    returns true, and the table holds the records of exactly the entries
    parsed before the error, in order. *)
Theorem Open_keeps_parsed_entries opener fmt d ar l arF w :
  opener d = Some ar -> ar_at_eof ar = false ->
  parses ar l arF -> ar_at_eof arF = false ->
  Z.of_nat (length l) <= vector_max_size bld ->
  exists a' w',
    Open bld (Archive_ctor (ar_stream := ar_stream) opener fmt) (Some d) w
      = Returned (true, a', w') /\
    length (GetFileInfos a') = length l /\
    forall k : nat, GetFileInfos a' !! k = entry_record bld (Z.of_nat k) <$> l !! k.
Proof.
  intros Ho He P _ Hfit.
  pose proof (Open_parsed bld (Archive_ctor opener fmt) d ar l arF w Ho He P) as R.
  cbn [Archive_ctor fileInfos_ length Nat.add app] in R.
  specialize (R (or_intror Hfit)).
  eexists _, _. split; [exact R|].
  destruct (Open_ctor_table bld _ _ _ _ _ _ R)
    as (d' & ar' & l' & arF' & [= <-] & Ho' & _ & P' & _ & _ & Hlen & Hk).
  assert (ar' = ar) as -> by congruence.
  destruct (parses_det _ _ _ _ _ P P') as [<- <-].
  split; assumption.
Qed.

(** C5 (as the code has it).  [Open] of a new handle tells the two cases
    apart by the end-of-data flag of the handle right after it is opened,
    before any entry is parsed: with the flag set and a format other than
    Rar it returns false and the table stays empty; with the flag clear it
    returns true however many entries were parsed when [ar_parse_entry]
    failed, one or more or none. *)
Theorem Open_end_of_data opener fmt d ar w :
  opener d = Some ar ->
  (ar_at_eof ar = true -> fmt <> Rar ->
     exists a' w',
       Open bld (Archive_ctor (ar_stream := ar_stream) opener fmt) (Some d) w
         = Returned (false, a', w') /\
       GetFileInfos a' = []) /\
  (ar_at_eof ar = false -> forall l arF,
     parses ar l arF -> Z.of_nat (length l) <= vector_max_size bld ->
     exists a' w',
       Open bld (Archive_ctor (ar_stream := ar_stream) opener fmt) (Some d) w
         = Returned (true, a', w') /\
       length (GetFileInfos a') = length l).
Proof.
  intros Ho. split.
  - intros He Hfmt. unfold Open. cbn [Archive_ctor opener_ set_data_ set_ar_ format].
    rewrite Ho, He. destruct fmt; try congruence;
      eexists _, _; split; reflexivity.
  - intros He l arF P Hfit.
    pose proof (Open_parsed bld (Archive_ctor opener fmt) d ar l arF w Ho He P) as R.
    cbn [Archive_ctor fileInfos_ length Nat.add app] in R.
    specialize (R (or_intror Hfit)).
    eexists _, _. split; [exact R|].
    cbn [GetFileInfos opened_archive set_fileInfos_ fileInfos_].
    apply records_length.
Qed.

End OpenClaims.

(** ** The fallback extractor *)

Lemma wcs_eq_eq (s t : wstring) : wcs_eq s t = true <-> s = t.
Proof.
  revert t. induction s as [|c s IH]; intros [|d t]; simpl; split;
    try congruence; try discriminate.
  - intros [Hc Hs]%andb_true_iff. apply Z.eqb_eq in Hc. apply IH in Hs. congruence.
  - intros [= -> ->]. rewrite Z.eqb_refl. now apply IH.
Qed.

Lemma names_agree_lookup (known derived : list wstring) :
  names_agree known derived = true <->
  forall (idx : nat) k d, known !! idx = Some k -> derived !! idx = Some d -> k = d.
Proof.
  revert derived. induction known as [|k ks IH]; intros [|d ds]; simpl;
    try (split; [intros _ idx k' d' Hk Hd; (discriminate || (destruct idx; discriminate))
                | reflexivity]).
  rewrite andb_true_iff, wcs_eq_eq, IH. split.
  - intros [-> Hrest] [|idx] k' d' Hk Hd; simpl in *; [congruence | eauto].
  - intros Hall. split; [apply (Hall 0%nat); reflexivity|].
    intros idx k' d' Hk Hd. apply (Hall (S idx)); assumption.
Qed.

Lemma TransChars_slash (s : wstring) :
  TransChars s (L "\") (L "/") = map slash_of_backslash s.
Proof. reflexivity. Qed.

(** The loop, from any position it can reach. *)
Lemma ExtractFilenames_loop_spec (ahead : list RarMember) :
  forall (idx : nat) (filenames : list wstring),
  (idx <= length filenames)%nat ->
  ExtractFilenames_loop ahead idx filenames =
    if names_agree (drop idx filenames) (map normalised_name ahead)
    then Returned (filenames ++
                   drop (length filenames - idx) (map normalised_name ahead))
    else Crashed.
Proof.
  induction ahead as [|m rest IH]; intros idx filenames Hidx; cbn [ExtractFilenames_loop map].
  - destruct (drop idx filenames); simpl; now rewrite drop_nil, app_nil_r.
  - fold (normalised_name m).
    destruct (Nat.eqb_spec (length filenames) idx) as [<- | Hne].
    + rewrite drop_all, Nat.sub_diag. cbn [names_agree drop].
      rewrite IH by (rewrite length_app; simpl; lia).
      rewrite length_app, drop_ge by (rewrite length_app; simpl; lia).
      cbn [length names_agree].
      replace (length filenames + 1 - S (length filenames))%nat with 0%nat by lia.
      cbn [drop]. now rewrite <- app_assoc.
    + assert (idx < length filenames)%nat as Hlt by lia.
      destruct (lookup_lt_is_Some_2 filenames idx Hlt) as [known Hk].
      rewrite Hk, (drop_S _ _ _ Hk). cbn [names_agree EqW].
      destruct (wcs_eq known (normalised_name m)); cbn [negb andb]; [|reflexivity].
      rewrite IH by lia.
      replace (length filenames - idx)%nat with (S (length filenames - S idx)) by lia.
      reflexivity.
Qed.

(** C9.  With the library usable and the archive open, [ExtractFilenames]
    on an empty list records one name per header, in header order, each the
    header's name with every backslash replaced by a forward slash.  Called
    with names already recorded, it compares the name derived at each
    recorded position with the recorded one: when all agree it returns true,
    keeping the recorded names and appending those past them; when some
    position disagrees it crashes ([CrashIf]) instead of returning. *)
Theorem ExtractFilenames_names w rarPath lib p hArc :
  unrar_usable w rarPath = Some (lib, p) ->
  RAROpenArchiveEx lib p RAR_OM_EXTRACT = (Some hArc, 0) ->
  let derived := map normalised_name (members_ahead hArc) in
  (forall m, normalised_name m = map slash_of_backslash (FileNameW (member_header m))) /\
  ExtractFilenames w rarPath [] = Returned (true, derived) /\
  forall filenames : list wstring,
    ((forall (idx : nat) known name',
        filenames !! idx = Some known -> derived !! idx = Some name' -> known = name') ->
     ExtractFilenames w rarPath filenames
       = Returned (true, filenames ++ drop (length filenames) derived)) /\
    ((exists (idx : nat) known name',
        filenames !! idx = Some known /\ derived !! idx = Some name' /\ known <> name') ->
     ExtractFilenames w rarPath filenames = Crashed).
Proof.
  intros Hlib Hopen derived.
  assert (forall filenames,
            ExtractFilenames w rarPath filenames =
            if names_agree filenames derived
            then Returned (true, filenames ++ drop (length filenames) derived)
            else Crashed) as Hrun.
  { intros filenames. unfold ExtractFilenames. rewrite Hlib, Hopen. cbn [Z.eqb negb].
    rewrite ExtractFilenames_loop_spec by lia.
    rewrite Nat.sub_0_r, drop_0. fold derived.
    destruct (names_agree filenames derived); reflexivity. }
  split; [intros m; apply TransChars_slash|]. split.
  - rewrite Hrun. reflexivity.
  - intros filenames. rewrite Hrun. split.
    + intros Hall. apply names_agree_lookup in Hall. now rewrite Hall.
    + intros (idx & known & name' & Hk & Hd & Hne).
      destruct (names_agree filenames derived) eqn:E; [|reflexivity].
      exfalso. apply Hne. eapply names_agree_lookup; eassumption.
Qed.

Lemma end_code_nonzero (hArc : HANDLE) : end_code hArc <> 0.
Proof. unfold end_code. destruct (ends_broken hArc); discriminate. Qed.

Lemma GetFileByName_find_none (ahead : list RarMember) code filename res :
  GetFileByName_find ahead code filename = (res, None) -> res = code.
Proof.
  induction ahead as [|m ahead IH]; cbn [GetFileByName_find].
  - congruence.
  - destruct (EqIW (Some (TransChars (FileNameW (member_header m)) (L "\") (L "/")))
                   filename); [discriminate | exact IH].
Qed.

(** What [GetFileByName] has done when it returns a buffer. *)
Lemma GetFileByName_returns w rarPath filename len data n :
  GetFileByName w rarPath filename len = (Some data, n) ->
  exists lib p hArc m payload,
    unrar_usable w rarPath = Some (lib, p) /\
    RAROpenArchiveEx lib p RAR_OM_EXTRACT = (Some hArc, 0) /\
    GetFileByName_find (members_ahead hArc) (end_code hArc) filename = (0, Some m) /\
    UnpSizeHigh (member_header m) = 0 /\
    RARProcessFile_test w (member_messages m) (member_test_code m) [] = (0, payload) /\
    Z.of_nat (length payload) = UnpSize (member_header m) /\
    data = payload ++ [x00; x00; x00] /\
    n = if len then Some (UnpSize (member_header m) + 1) else None.
Proof.
  unfold GetFileByName.
  destruct (unrar_usable w rarPath) as [[lib p]|] eqn:Hlib; [|discriminate].
  destruct (RAROpenArchiveEx lib p RAR_OM_EXTRACT) as [[hArc|] OpenResult] eqn:Hopen;
    [|discriminate].
  destruct (Z.eqb_spec OpenResult 0) as [-> | ]; cbn [negb]; [|discriminate].
  destruct (GetFileByName_find _ _ _) as [res [m|]] eqn:Hfind.
  2:{ destruct (Z.eqb_spec res 0); cbn [negb]; [|discriminate].
      apply GetFileByName_find_none in Hfind.
      pose proof (end_code_nonzero hArc). congruence. }
  destruct (Z.eqb_spec res 0) as [-> | ]; cbn [negb Z.eqb].
  2:{ destruct (Z.eqb_spec res 0); [contradiction | discriminate]. }
  destruct (Z.eqb_spec (UnpSizeHigh (member_header m)) 0) as [Hhigh | ]; cbn [negb].
  2:{ destruct (AppendChecked _ _ _ _) as [[|] ?]; discriminate. }
  destruct (RARProcessFile_test _ _ _ _) as [res payload] eqn:Htest.
  destruct (Z.eqb_spec (UnpSize (member_header m)) (Z.of_nat (length payload)))
    as [Hsize | ]; cbn [negb].
  2:{ destruct (AppendChecked _ _ _ _) as [[|] ?]; discriminate. }
  unfold AppendChecked.
  destruct (can_alloc w _); cbn [negb]; [|discriminate].
  destruct (Z.eqb_spec res 0) as [-> | ]; cbn [negb]; [|discriminate].
  intros [= <- <-]. exists lib, p, hArc, m, payload.
  repeat split; try assumption; try (symmetry; assumption).
  destruct len; [|reflexivity]. f_equal.
  rewrite length_app. cbn [length take Z.to_nat Pos.to_nat Pos.iter_op Nat.add].
  change (take 3 [x00; x00; x00]) with [x00; x00; x00]. cbn [length]. lia.
Qed.

(** The two refusals of [GetFileByName]: a size that needs the high word,
    and a byte count other than the declared size. *)
Lemma GetFileByName_refuses w rarPath filename len lib p hArc m :
  unrar_usable w rarPath = Some (lib, p) ->
  RAROpenArchiveEx lib p RAR_OM_EXTRACT = (Some hArc, 0) ->
  GetFileByName_find (members_ahead hArc) (end_code hArc) filename = (0, Some m) ->
  UnpSizeHigh (member_header m) <> 0 \/
  UnpSize (member_header m) <>
    Z.of_nat (length (snd (RARProcessFile_test w (member_messages m)
                                               (member_test_code m) []))) ->
  GetFileByName w rarPath filename len = (None, None).
Proof.
  intros Hlib Hopen Hfind Hbad.
  destruct (GetFileByName w rarPath filename len) as [[data|] n] eqn:R.
  - apply GetFileByName_returns in R
      as (lib' & p' & hArc' & m' & payload & Hlib' & Hopen' & Hfind' & Hhigh & Ht & Hsz & _).
    assert (lib' = lib /\ p' = p) as [-> ->] by (split; congruence).
    assert (hArc' = hArc) as -> by congruence.
    assert (m' = m) as -> by congruence.
    rewrite Ht in Hbad. cbn [snd] in Hbad. destruct Hbad; congruence.
  - revert R. unfold GetFileByName. rewrite Hlib, Hopen, Hfind. cbn [Z.eqb negb].
    repeat next_case; congruence.
Qed.

(** C4.  On the archive [rar_a; rar_b], whose member [dir\a.txt] declares 5
    bytes and delivers [hello], [GetFileByName] succeeds, the buffer is the
    5 bytes followed by three zero bytes, and the length it reports is 6:
    one more than the declared size, so one byte of the padding is counted. *)
Theorem GetFileByName_reported_length :
  GetFileByName world_unrar_loaded (Some (L "x.rar")) (Some (L "DIR/A.TXT")) true
    = (Some (bytes_hello ++ [x00; x00; x00]), Some 6) /\
  UnpSize (member_header rar_a) = 5 /\
  UnpSizeHigh (member_header rar_a) = 0.
Proof. repeat split. Qed.

(** * Concrete runs *)

(** ** Where the code departs from the specification *)

(** C1, at a failing input: a Rar handle on a stream the decoder does not
    recognise, on Windows with unrar.dll (version 6) installed.  The fallback
    engine is constructed and usable afterwards, and [Open] returns false,
    where the comment at lines 12-14 has unrar.dll used as a fallback
    whenever a RAR archive fails to open. *)
Lemma Open_rar_fallback_counterexample :
  exists a' w',
    Open win64 new_rar (Some no_stream) world_unrar = Returned (false, a', w') /\
    fallback a' = Some mkUnRarDll /\
    unrar_usable w' (Some (L "x.rar")) = Some (unrar6, L "x.rar") /\
    RAR_DLL_VERSION <= RARGetDllVersion unrar6.
Proof.
  eexists _, _. split; [vm_compute; reflexivity|].
  split; [reflexivity|]. split; [reflexivity|]. vm_compute. discriminate.
Qed.

(** Against C3: a Zip handle on one good member followed by a broken header.
    The decoder fails after the first entry without reaching end-of-data,
    and [Open] returns true with that one entry in the table. *)
Lemma Open_partial_counterexample :
  exists a' w',
    Open win64 new_zip (Some broken_stream) world0 = Returned (true, a', w') /\
    parses broken_0 [broken_1] broken_2 /\
    ar_ a' = Some broken_2 /\ ar_at_eof broken_2 = false /\
    GetFileInfos a' = [record_a].
Proof.
  eexists _, _. split; [vm_compute; reflexivity|]. split.
  - apply parses_more with (ar1 := broken_1); [reflexivity|].
    apply parses_stop. reflexivity.
  - repeat split.
Qed.

(** Against C5: a Zip handle on a container with no member.  The handle is
    not at end-of-data when opened; the first [ar_parse_entry] reports the
    end of data with no entry parsed, and [Open] returns true with an empty
    table. *)
Lemma Open_empty_counterexample :
  exists a' arF w',
    Open win64 new_zip (Some empty_stream) world0 = Returned (true, a', w') /\
    parses (mem_open [] true []) [] arF /\
    ar_ a' = Some arF /\ ar_at_eof arF = true /\
    GetFileInfos a' = [].
Proof.
  eexists _, _, _. split; [vm_compute; reflexivity|]. split.
  - apply parses_stop. reflexivity.
  - repeat split.
Qed.

(** ** The properties at concrete inputs *)

(** A Rar handle on an unrecognised stream, with unrar.dll installed. *)
Lemma Open_rar_fallback_false_witness :
  format new_rar = Rar /\
  (opener_ new_rar no_stream = None \/
   exists ar, opener_ new_rar no_stream = Some ar /\ ar_at_eof ar = true) /\
  exists a' w',
    Open win64 new_rar (Some no_stream) world_unrar = Returned (false, a', w') /\
    GetFileInfos a' = GetFileInfos new_rar.
Proof.
  assert (H1 : format new_rar = Rar) by reflexivity.
  assert (H2 : opener_ new_rar no_stream = None \/
               exists ar, opener_ new_rar no_stream = Some ar /\ ar_at_eof ar = true)
    by (left; reflexivity).
  split; [exact H1|]. split; [exact H2|].
  destruct (Open_rar_fallback_false win64 new_rar no_stream world_unrar H1 H2)
    as (a' & w' & R & T & _).
  exists a', w'. split; assumption.
Defined.

(** Extracting [a.txt] (5 bytes) from the opened two-member container. *)
Lemma GetFileDataById_logged_success_witness :
  exists r n a' w',
    GetFileDataById win64 zip_opened 0 true world0 = Returned (r, n, a', w') /\
    exists data, r = Some data /\ n = Some 5 /\ Z.of_nat (length data) = 5 + 3 /\
      data !! 5%nat = Some x00 /\ data !! 6%nat = Some x00 /\ data !! 7%nat = Some x00.
Proof.
  eexists _, _, _, _.
  match goal with |- ?G /\ _ => assert (R : G) by (vm_compute; reflexivity) end.
  split; [exact R|].
  destruct (GetFileDataById_logged_success win64 zip_opened 0 true world0
              record_a
              _ _ _ _ ltac:(lia) eq_refl ltac:(vm_compute; split; discriminate) R)
    as (data & Hr & Hn & Hlen & H5 & H6 & H7).
  - exists 30. vm_compute. do 2 apply list_elem_of_further. apply list_elem_of_here.
  - exists 5. vm_compute. apply list_elem_of_here.
  - exists data. repeat split; assumption.
Defined.

(** One member, then a broken header. *)
Lemma Open_keeps_parsed_entries_witness :
  mem_opener broken_stream = Some broken_0 /\ ar_at_eof broken_0 = false /\
  parses broken_0 [broken_1] broken_2 /\ ar_at_eof broken_2 = false /\
  exists a' w',
    Open win64 new_zip (Some broken_stream) world0 = Returned (true, a', w') /\
    length (GetFileInfos a') = 1%nat.
Proof.
  assert (P : parses broken_0 [broken_1] broken_2).
  { apply parses_more with (ar1 := broken_1); [reflexivity|].
    apply parses_stop. reflexivity. }
  assert (Ho : mem_opener broken_stream = Some broken_0) by reflexivity.
  assert (He : ar_at_eof broken_0 = false) by reflexivity.
  assert (Hb : ar_at_eof broken_2 = false) by reflexivity.
  assert (Hfit : Z.of_nat (length [broken_1]) <= vector_max_size win64)
    by (vm_compute; discriminate).
  repeat (split; [assumption|]).
  destruct (Open_keeps_parsed_entries win64 mem_opener Zip broken_stream broken_0
              [broken_1] broken_2 world0 Ho He P Hb Hfit)
    as (a' & w' & R & Hlen & _).
  exists a', w'. split; assumption.
Defined.

(** A Zip handle that is at end-of-data as soon as it is opened, and one on
    a container with no member. *)
Lemma Open_end_of_data_witness :
  mem_opener eof_stream = Some eof_0 /\ ar_at_eof eof_0 = true /\ Zip <> Rar /\
  (exists a' w',
     Open win64 new_zip (Some eof_stream) world0 = Returned (false, a', w') /\
     GetFileInfos a' = []) /\
  exists a' w',
    Open win64 new_zip (Some empty_stream) world0 = Returned (true, a', w') /\
    length (GetFileInfos a') = 0%nat.
Proof.
  assert (Ho : mem_opener eof_stream = Some eof_0) by reflexivity.
  assert (He : ar_at_eof eof_0 = true) by reflexivity.
  assert (Hf : Zip <> Rar) by discriminate.
  repeat (split; [assumption|]). split.
  - exact (proj1 (Open_end_of_data win64 mem_opener Zip eof_stream eof_0 world0 Ho) He Hf).
  - assert (Ho' : mem_opener empty_stream = Some (mem_open [] true [])) by reflexivity.
    assert (He' : ar_at_eof (mem_open [] true []) = false) by reflexivity.
    assert (P : parses (mem_open [] true []) [] (snd (mem_parse_entry (mem_open [] true []))))
      by (apply parses_stop; reflexivity).
    assert (Hfit : Z.of_nat (length (@nil MemArchive)) <= vector_max_size win64)
      by (vm_compute; discriminate).
    exact (proj2 (Open_end_of_data win64 mem_opener Zip empty_stream _ world0 Ho')
                 He' [] _ P Hfit).
Defined.

(** Ids 2 and [(size_t)-1] on a table of two entries, and a comment asked of
    a handle that was never opened. *)
Lemma GetFileData_guards_witness :
  Z.of_nat (length (GetFileInfos zip_opened)) <= 2 /\
  GetFileDataById win64 zip_opened 2 true world0
    = Returned (None, None, zip_opened, world0) /\
  GetFileDataById win64 zip_opened (SIZE_MAX win64) true world0
    = Returned (None, None, zip_opened, world0) /\
  GetComment win64 new_zip true world0 = Returned (None, None, new_zip, world0).
Proof.
  assert (H : Z.of_nat (length (GetFileInfos zip_opened)) <= 2) by (vm_compute; discriminate).
  split; [exact H|]. split; [|split].
  - exact (proj1 (proj2 (GetFileData_guards win64 zip_opened 2 true world0)) H).
  - apply (proj2 (proj2 (GetFileData_guards win64 zip_opened (SIZE_MAX win64) true world0))
             mem_opener Zip (Some zip_stream) world0 zip_opened_world).
    vm_compute. reflexivity.
  - apply (proj1 (GetFileData_guards win64 new_zip 0 true world0)). reflexivity.
Defined.

(** Lookups in the table of the two-member container. *)
Lemma GetFileDataByName_composes_witness :
  GetFileInfos zip_opened
    = [] ++ record_a :: [record_c] /\
  EqI (name record_a) (Some "A.TXT"%string) = true /\
  GetFileId win64 zip_opened (Some "A.TXT"%string) = 0 /\
  GetFileId win64 zip_opened (Some "b/c.bin"%string) = 1 /\
  GetFileId win64 zip_opened (Some "missing"%string) = SIZE_MAX win64.
Proof.
  split; [reflexivity|]. split; [reflexivity|]. split; [|split].
  - apply (proj1 (proj2 (proj2
             (GetFileDataByName_composes win64 zip_opened (Some "A.TXT"%string) true world0)))
             [] record_a _ eq_refl); [constructor | reflexivity].
  - reflexivity.
  - apply (proj2 (proj2 (proj2
             (GetFileDataByName_composes win64 zip_opened (Some "missing"%string) true world0)))).
    repeat constructor.
Defined.


(** The two-member RAR archive, listed afresh and against a recorded name
    that differs in case. *)
Lemma ExtractFilenames_names_witness :
  unrar_usable world_unrar_loaded (Some (L "x.rar")) = Some (unrar6, L "x.rar") /\
  RAROpenArchiveEx unrar6 (L "x.rar") RAR_OM_EXTRACT
    = (Some {| members_ahead := [rar_a; rar_b]; ends_broken := false |}, 0) /\
  ExtractFilenames world_unrar_loaded (Some (L "x.rar")) []
    = Returned (true, [L "dir/a.txt"; L "dir/sub/b.txt"]) /\
  ExtractFilenames world_unrar_loaded (Some (L "x.rar")) [L "dir/A.txt"] = Crashed.
Proof.
  split; [reflexivity|]. split; [reflexivity|].
  pose proof (ExtractFilenames_names world_unrar_loaded (Some (L "x.rar")) unrar6
                (L "x.rar") {| members_ahead := [rar_a; rar_b]; ends_broken := false |}
                eq_refl eq_refl) as (_ & Hfresh & Hagain).
  split; [exact Hfresh|].
  apply (proj2 (Hagain [L "dir/A.txt"])).
  exists 0%nat, (L "dir/A.txt"), (L "dir/a.txt").
  split; [reflexivity|]. split; [reflexivity|]. discriminate.
Defined.

(** The member that declares [2^64 - 2] bytes, on a 64-bit build. *)
Lemma GetFileDataById_size_overflow_witness :
  0 <= 1 /\
  GetFileInfos huge_opened !! Z.to_nat 1
    = Some record_huge /\
  SIZE_MAX win64 - 3 < 2 ^ 64 - 2 /\
  exists a' w',
    GetFileDataById win64 huge_opened 1 true world0 = Returned (None, None, a', w') /\
    Forall (fun e => is_malloc e = false) (calls_since world0 w').
Proof.
  split; [lia|]. split; [reflexivity|]. split; [vm_compute; reflexivity|].
  apply (GetFileDataById_size_overflow win64 huge_opened 1 true world0
           record_huge);
    [lia | reflexivity | reflexivity | vm_compute; reflexivity].
Defined.

(** * Further properties of the code *)

(** ** [Archive::Open] on any handle *)

Lemma UnRarDll_ctor_calls w : calls (snd (UnRarDll_ctor w)) = calls w.
Proof.
  unfold UnRarDll_ctor. destruct (unrar_procs w); [reflexivity|].
  destruct (unrar_installed w); reflexivity.
Qed.

Section OpenFacts.

Context (bld : Build).
Context {ar_stream ar_archive : Type} `{!Codec ar_archive}.

Implicit Type a : Archive ar_stream ar_archive.

Lemma OpenUnrarFallback_result a w :
  exists a' w', OpenUnrarFallback bld a w = (false, a', w') /\
    format a' = format a /\ data_ a' = data_ a /\ ar_ a' = ar_ a /\
    fileInfos_ a' = fileInfos_ a /\ calls w' = calls w.
Proof.
  unfold OpenUnrarFallback. destruct (ENABLE_UNRARDLL_FALLBACK bld).
  - pose proof (UnRarDll_ctor_calls w) as Hc.
    destruct (UnRarDll_ctor w) as [dll w1]. eexists _, _. repeat split. exact Hc.
  - eexists _, _. repeat split.
Qed.

(** What a false result leaves behind. *)
Lemma Open_false_inv a data w a' w' :
  Open bld a data w = Returned (false, a', w') ->
  format a' = format a /\ data_ a' = data /\
  fileInfos_ a' = fileInfos_ a /\
  ar_ a' = match data with None => ar_ a | Some d => opener_ a d end /\
  calls w' = match data with
             | None => calls w
             | Some d => EvOpen (bool_decide (is_Some (opener_ a d))) :: calls w
             end.
Proof.
  unfold Open. destruct data as [d|]; [|intros [= <- <-]; repeat split].
  cbn [opener_ set_data_ set_ar_ format fileInfos_].
  set (a1 := set_ar_ (opener_ a d) (set_data_ (Some d) a)).
  set (w1 := log (EvOpen (bool_decide (is_Some (opener_ a d)))) w).
  assert (forall r, Returned (OpenUnrarFallback bld a1 w1) = Returned (r, a', w') ->
            format a' = format a /\ data_ a' = Some d /\
            fileInfos_ a' = fileInfos_ a /\ ar_ a' = opener_ a d /\
            calls w' = EvOpen (bool_decide (is_Some (opener_ a d))) :: calls w) as Hfb.
  { intros r E.
    destruct (OpenUnrarFallback_result a1 w1) as (a2 & w2 & E2 & ? & ? & ? & ? & ?).
    rewrite E2 in E. injection E as <- <- <-. repeat split; assumption. }
  destruct (opener_ a d) as [ar|] eqn:Ho.
  - destruct (ar_at_eof ar).
    + destruct (Format_is_Rar (format a)); [apply Hfb|].
      intros [= <- <-]. repeat split.
    + destruct (parse_entries _ _ _ _ _ _) as [[[? ?] ?]| |]; discriminate.
  - destruct (Format_is_Rar (format a)); [apply Hfb|].
    intros [= <- <-]. repeat split.
Qed.

(** X1.  [Open] never drops or rewrites a record that is already in the
    table.  A false result leaves the table as it was (and the decoder
    handle is whatever the opener returned, or untouched for a null
    stream); a true
    result appends the new records after the old ones, and the new records
    are numbered from 0 in the order they were parsed, whatever the table
    held before. *)
Theorem Open_table_growth a data w b a' w' :
  Open bld a data w = Returned (b, a', w') ->
  format a' = format a /\ data_ a' = data /\
  if b then
    exists new, fileInfos_ a' = fileInfos_ a ++ new /\
      forall (k : nat) fi, new !! k = Some fi -> fileId fi = Z.of_nat k
  else
    fileInfos_ a' = fileInfos_ a /\
    ar_ a' = match data with None => ar_ a | Some d => opener_ a d end.
Proof.
  destruct b; intros R.
  - apply Open_true_inv in R as (d & ar & l & arF & -> & Ho & He & P & -> & Hfit).
    split; [reflexivity|]. split; [reflexivity|].
    exists (records bld 0 l). split; [reflexivity|].
    intros k fi Hk.
    pose proof (vector_max_size_lt bld) as [_ Hmax].
    assert (Z.of_nat (length l) <= SIZE_MAX bld + 1) as Hl.
    { destruct Hfit as [-> | Hfit]; [simpl; pose proof (SIZE_MAX_cases bld); lia|].
      cbn [opened_archive set_fileInfos_ fileInfos_] in Hfit.
      rewrite length_app, records_length in Hfit. lia. }
    rewrite records_lookup in Hk by lia.
    destruct (l !! k); [|discriminate]. injection Hk as <-. reflexivity.
  - apply Open_false_inv in R as (? & ? & ? & ? & _). repeat split; assumption.
Qed.

(** X2.  [Open] makes one pass: it calls the opener at most once (not at
    all for a null stream), and on success it has called [ar_parse_entry]
    once per record added plus the one call that failed, and nothing else. *)
Theorem Open_call_log a data w b a' w' :
  Open bld a data w = Returned (b, a', w') ->
  calls_since w w' =
    if b then
      EvParse false ::
      repeat (EvParse true) (length (fileInfos_ a') - length (fileInfos_ a))
      ++ [EvOpen true]
    else match data with
         | None => []
         | Some d => [EvOpen (bool_decide (is_Some (opener_ a d)))]
         end.
Proof.
  destruct b; intros R.
  - pose proof R as R'.
    apply Open_true_inv in R' as (d & ar & l & arF & -> & Ho & He & P & -> & Hfit).
    cbn [opened_archive set_fileInfos_ fileInfos_] in *.
    rewrite length_app, records_length in *.
    rewrite (Open_parsed bld a d ar l arF w Ho He P) in R
      by (destruct Hfit; [now left | now right]).
    injection R as Hw.
    replace (length (fileInfos_ a) + length l - length (fileInfos_ a))%nat
      with (length l) by lia.
    apply calls_since_app. rewrite <- Hw. cbn [calls log].
    rewrite calls_log_all. cbn [calls log app]. rewrite <- app_assoc. reflexivity.
  - apply Open_false_inv in R as (_ & _ & _ & _ & Hc).
    destruct data as [d|].
    + now apply (calls_since_app _ _ [_]).
    + now apply (calls_since_app _ _ []).
Qed.

End OpenFacts.

(** ** Extraction, call by call *)

Lemma drop_three_zero (l : list byte) (n : nat) :
  length l = (n + 3)%nat ->
  l !! n = Some x00 -> l !! (n + 1)%nat = Some x00 -> l !! (n + 2)%nat = Some x00 ->
  drop n l = [x00; x00; x00].
Proof.
  intros Hl H0 H1 H2.
  assert (length (drop n l) = 3%nat) as Hd by (rewrite length_drop; lia).
  pose proof (lookup_drop l n 0) as E0. pose proof (lookup_drop l n 1) as E1.
  pose proof (lookup_drop l n 2) as E2.
  rewrite Nat.add_0_r, H0 in E0. rewrite H1 in E1. rewrite H2 in E2.
  destruct (drop n l) as [|b0 [|b1 [|b2 [|? ?]]]]; try discriminate.
  simpl in E0, E1, E2. congruence.
Qed.

Section ExtractionFacts.

Context (bld : Build).
Context {ar_stream ar_archive : Type} `{!Codec ar_archive}.

Implicit Type a : Archive ar_stream ar_archive.

(** X4.  The calls [GetFileDataById] makes, in order: nothing when the
    guard refuses; otherwise one seek, then (only after a successful seek
    and a size of at most [SIZE_MAX - 3]) one allocation of [size + 3]
    bytes, then (only after a successful allocation) one decompression of
    [size] bytes.  Only the last line of calls, all three succeeding, ends
    with a buffer. *)
Theorem GetFileDataById_calls a id len w r n a' w' :
  GetFileDataById bld a id len w = Returned (r, n, a', w') ->
  (calls_since w w' = [] /\ r = None /\
   (ar_ a = None \/ Z.of_nat (length (fileInfos_ a)) <= id)) \/
  exists fi, fileInfos_ a !! Z.to_nat id = Some fi /\
    let pos := filePos fi in
    let size := fileSizeUncompressed fi in
    let m := to_size_t bld (size + 3) in
    (calls_since w w' = [EvSeek pos false] /\ r = None) \/
    (calls_since w w' = [EvSeek pos true] /\ r = None /\ SIZE_MAX bld - 3 < size) \/
    (size <= SIZE_MAX bld - 3 /\ (0 <= size -> m = size + 3) /\
     ((calls_since w w' = [EvMalloc m false; EvSeek pos true] /\ r = None) \/
      (calls_since w w' = [EvUncompress size false; EvMalloc m true; EvSeek pos true]
         /\ r = None) \/
      (calls_since w w' = [EvUncompress size true; EvMalloc m true; EvSeek pos true]
         /\ is_Some r))).
Proof.
  unfold GetFileDataById.
  destruct (ar_ a) as [ar|].
  2:{ intros [= <- <- <- <-]. left. rewrite calls_since_refl. auto. }
  destruct (Z.leb_spec (Z.of_nat (length (fileInfos_ a))) id).
  { intros [= <- <- <- <-]. left. rewrite calls_since_refl. auto. }
  destruct (fileInfos_ a !! Z.to_nat id) as [fi|]; [|discriminate].
  destruct (fileId fi =? id); [|discriminate]. cbn [negb].
  intros R. right. exists fi. split; [reflexivity|]. cbn zeta.
  destruct (ar_parse_entry_at ar (filePos fi)) as [[|] ar1]; cbn [negb] in R.
  2:{ injection R as <- <- <- <-. left.
      split; [now apply (calls_since_app _ _ [_]) | reflexivity]. }
  right.
  destruct (Z.ltb_spec (SIZE_MAX bld - 3) (fileSizeUncompressed fi)).
  { injection R as <- <- <- <-. left.
    split; [now apply (calls_since_app _ _ [_]) | auto]. }
  right. split; [lia|]. split.
  { intros Hpos. pose proof (SIZE_MAX_cases bld). apply to_size_t_id. lia. }
  destruct (malloc _ _) as [[data0|] w1] eqn:M; apply malloc_calls in M.
  2:{ injection R as <- <- <- <-. left. split; [|reflexivity].
      apply (calls_since_app _ _ [_; _]). rewrite M. reflexivity. }
  destruct (ar_entry_uncompress ar1 _) as [[[|] bytes] ar2]; cbn [negb] in R;
    injection R as <- <- <- <-; right; [right | left];
    (split; [apply (calls_since_app _ _ [_; _; _]); cbn [calls log]; rewrite M;
             reflexivity | eauto]).
Qed.

(** X5.  The buffer of a successful extraction is the first [size] bytes the
    decoder wrote followed by three zero bytes, and nothing else; the length
    reported is [size]. *)
Theorem GetFileDataById_content a id len w ar fi ar1 bytes ar2 :
  ar_ a = Some ar ->
  0 <= id -> fileInfos_ a !! Z.to_nat id = Some fi -> fileId fi = id ->
  ar_parse_entry_at ar (filePos fi) = (true, ar1) ->
  0 <= fileSizeUncompressed fi <= SIZE_MAX bld - 3 ->
  can_alloc w (fileSizeUncompressed fi + 3) = true ->
  ar_entry_uncompress ar1 (fileSizeUncompressed fi) = (true, bytes, ar2) ->
  fileSizeUncompressed fi <= Z.of_nat (length bytes) ->
  exists a' w',
    GetFileDataById bld a id len w =
      Returned (Some (take (Z.to_nat (fileSizeUncompressed fi)) bytes ++ [x00; x00; x00]),
                if len then Some (fileSizeUncompressed fi) else None, a', w') /\
    ar_ a' = Some ar2.
Proof.
  intros Har Hid Hfi Hsame Hseek Hsize Halloc Hu Hbytes.
  set (size := fileSizeUncompressed fi) in *.
  destruct (malloc (size + 3) (log (EvSeek (filePos fi) true) w)) as [data0 w1] eqn:M.
  assert (exists d0, data0 = Some d0) as [d0 ->].
  { revert M. unfold malloc. cbn [can_alloc log]. rewrite Halloc.
    intros [= <- <-]. eauto. }
  pose proof (malloc_length _ _ _ _ M) as Hl0.
  rewrite (GetFileDataById_success bld a id len w ar fi ar1 d0 w1 bytes ar2)
    by assumption.
  fold size.
  exists (set_ar_ (Some ar2) (set_ar_ (Some ar1) a)), (log (EvUncompress size true) w1).
  split; [|reflexivity].
  set (k := Z.to_nat size) in *.
  assert (length (take k bytes) = k) as Htk by (rewrite length_take; lia).
  assert (length (store_bytes d0 bytes k) = (k + 3)%nat) as Hl.
  { rewrite store_bytes_length; lia. }
  destruct (zero_padding _ _ Hl) as (Hlen & Hz0 & Hz1 & Hz2 & Htake).
  cbv zeta in Hlen, Hz0, Hz1, Hz2, Htake.
  set (buf := <[(k + 2)%nat := x00]>
                (<[(k + 1)%nat := x00]> (<[k := x00]> (store_bytes d0 bytes k)))) in *.
  assert (buf = take k bytes ++ [x00; x00; x00]) as ->; [|reflexivity].
  transitivity (take k buf ++ drop k buf); [symmetry; apply take_drop|].
  f_equal.
  - rewrite Htake. unfold store_bytes. apply take_app_length'. symmetry. exact Htk.
  - apply drop_three_zero; assumption.
Qed.

(** X6.  A call of [GetFileDataById] or [GetComment], whether it yields a
    buffer or not, hands the handle back as usable as it was: same format,
    stream, fallback object and table, and a decoder handle that is null
    only if it was null before. *)
Theorem extraction_keeps_handle a len w r n a' w' :
  (exists id, GetFileDataById bld a id len w = Returned (r, n, a', w')) \/
  GetComment bld a len w = Returned (r, n, a', w') ->
  format a' = format a /\ data_ a' = data_ a /\ fallback a' = fallback a /\
  fileInfos_ a' = fileInfos_ a /\ (ar_ a' = None <-> ar_ a = None).
Proof.
  intros [[id R] | R]; revert R; [unfold GetFileDataById | unfold GetComment];
    destruct (ar_ a) eqn:Har; repeat next_case; intros [= <- <- <- <-];
    cbn [format data_ fallback fileInfos_ ar_ set_ar_]; rewrite ?Har;
    repeat split; congruence.
Qed.

End ExtractionFacts.

(** ** Lookup and extraction on a well-formed table *)

Section TableUse.

Context (bld : Build).
Context {ar_stream ar_archive : Type} `{!Codec ar_archive}.

Implicit Type a : Archive ar_stream ar_archive.

Lemma getFileIdByName_cases (t : list FileInfo) fileName :
  (getFileIdByName bld t fileName = SIZE_MAX bld /\
   Forall (fun f => EqI (name f) fileName = false) t) \/
  exists pre fi post,
    t = pre ++ fi :: post /\
    Forall (fun f => EqI (name f) fileName = false) pre /\
    EqI (name fi) fileName = true /\
    getFileIdByName bld t fileName = fileId fi.
Proof.
  induction t as [|f t IH]; cbn [getFileIdByName].
  - left. split; [reflexivity | constructor].
  - destruct (EqI (name f) fileName) eqn:E.
    + right. exists [], f, t. repeat split; [constructor | assumption].
    + destruct IH as [[Hs Hall] | (pre & fi & post & -> & Hpre & Hhit & Hid)].
      * left. split; [assumption | now constructor].
      * right. exists (f :: pre), fi, post. repeat split; try assumption.
        now constructor.
Qed.

(** X7.  On a table whose records sit at their own id, [GetFileId] either
    returns [(size_t)-1], and then no record's name matches, or returns an
    index into the table: the record there matches the name, and no record
    before it does. *)
Theorem GetFileId_lookup a fileName :
  table_ok bld (fileInfos_ a) ->
  (GetFileId bld a fileName = SIZE_MAX bld /\
   forall (k : nat) fi, GetFileInfos a !! k = Some fi -> EqI (name fi) fileName = false) \/
  exists (k : nat) fi,
    GetFileId bld a fileName = Z.of_nat k /\
    GetFileInfos a !! k = Some fi /\
    EqI (name fi) fileName = true /\
    forall (j : nat) fj, (j < k)%nat -> GetFileInfos a !! j = Some fj ->
      EqI (name fj) fileName = false.
Proof.
  intros Hok. unfold GetFileId, GetFileInfos.
  destruct (getFileIdByName_cases (fileInfos_ a) fileName)
    as [[Hs Hall] | (pre & fi & post & E & Hpre & Hhit & Hid)].
  - left. split; [assumption|]. intros k fi Hk.
    rewrite Forall_forall in Hall. apply Hall. eapply list_elem_of_lookup_2. eassumption.
  - right. exists (length pre), fi.
    assert (fileInfos_ a !! length pre = Some fi) as Hk
      by (rewrite E; apply list_lookup_middle; reflexivity).
    destruct (Hok _ _ Hk) as (Hfid & _).
    split; [congruence|]. split; [assumption|]. split; [assumption|].
    intros j fj Hj Hfj. rewrite E, lookup_app_l in Hfj by assumption.
    rewrite Forall_forall in Hpre. apply Hpre. eapply list_elem_of_lookup_2. eassumption.
Qed.

(** X8.  On a table whose records sit at their own id, neither
    [GetFileDataById], for any id a [size_t] can hold, nor
    [GetFileDataByName], for any name, crashes: the [CrashIf] on the
    record's id never fires and the table is never read out of range. *)
Theorem extraction_never_crashes a :
  table_ok bld (fileInfos_ a) ->
  (forall id len w, 0 <= id -> exists res, GetFileDataById bld a id len w = Returned res) /\
  (forall fileName len w, exists res, GetFileDataByName bld a fileName len w = Returned res).
Proof.
  intros Hok.
  assert (forall id len w, 0 <= id ->
            exists res, GetFileDataById bld a id len w = Returned res) as Hid.
  { intros id len w Hpos. unfold GetFileDataById.
    destruct (ar_ a) as [ar|]; [|eauto].
    destruct (Z.leb_spec (Z.of_nat (length (fileInfos_ a))) id); [eauto|].
    destruct (lookup_lt_is_Some_2 (fileInfos_ a) (Z.to_nat id)) as [fi Hfi]; [lia|].
    rewrite Hfi. destruct (Hok _ _ Hfi) as (Hfid & _).
    rewrite Hfid, Z2Nat.id, Z.eqb_refl by lia. cbn [negb].
    repeat next_case; eauto. }
  split; [exact Hid|].
  intros fileName len w. unfold GetFileDataByName. apply Hid.
  destruct (getFileIdByName_cases (fileInfos_ a) fileName)
    as [[-> _] | (pre & fi & post & E & _ & _ & ->)].
  - pose proof (SIZE_MAX_cases bld). lia.
  - assert (fileInfos_ a !! length pre = Some fi) as Hk
      by (rewrite E; apply list_lookup_middle; reflexivity).
    destruct (Hok _ _ Hk) as (-> & _). lia.
Qed.

End TableUse.

(** ** [Archive::GetComment] *)

Lemma store_then_zero (d0 bytes : list byte) (k : nat) :
  length d0 = S k -> (k <= length bytes)%nat ->
  <[k := x00]> (store_bytes d0 bytes k) = take k bytes ++ [x00].
Proof.
  intros Hd Hb. unfold store_bytes.
  assert (length (take k bytes) = k) as Htk by (rewrite length_take; lia).
  rewrite Htk, insert_app_r_alt by lia. rewrite Htk, Nat.sub_diag. f_equal.
  assert (length (drop k d0) = 1%nat) as Hl by (rewrite length_drop; lia).
  destruct (drop k d0) as [|b [|? ?]]; try discriminate. reflexivity.
Qed.

Section CommentFacts.

Context (bld : Build).
Context {ar_stream ar_archive : Type} `{!Codec ar_archive}.

Implicit Type a : Archive ar_stream ar_archive.

(** X9.  [GetComment] returns null, and asks the allocator for nothing,
    when the decoder gives the comment's length as 0 (no comment) or as
    [(size_t)-1]; it also returns null when the second call reads another
    number of bytes than the first call announced. *)
Theorem GetComment_null a len w ar n0 b0 ar1 :
  ar_ a = Some ar ->
  ar_get_global_comment ar false 0 = (n0, b0, ar1) ->
  let commentLen := to_size_t bld n0 in
  (commentLen = 0 \/ commentLen = SIZE_MAX bld ->
     GetComment bld a len w
       = Returned (None, None, set_ar_ (Some ar1) a, log (EvComment 0) w)) /\
  (forall n1 bytes ar2,
     ar_get_global_comment ar1 true commentLen = (n1, bytes, ar2) ->
     to_size_t bld n1 <> commentLen ->
     exists a' w', GetComment bld a len w = Returned (None, None, a', w')).
Proof.
  intros Har H0 commentLen. unfold GetComment. rewrite Har, H0. fold commentLen. split.
  - intros [-> | ->].
    + reflexivity.
    + rewrite Z.eqb_refl, orb_true_r. reflexivity.
  - intros n1 bytes ar2 H1 Hne.
    destruct ((0 =? commentLen) || (SIZE_MAX bld =? commentLen)); [eauto|].
    destruct (malloc _ _) as [[comment|] w1]; [|eauto].
    rewrite H1. destruct (Z.eqb_spec (to_size_t bld n1) commentLen); [contradiction|].
    cbn [negb]. eauto.
Qed.

(** X10.  When the decoder announces a comment of [commentLen] bytes, the
    allocation of [commentLen + 1] bytes is met and the second call reads
    that many bytes, [GetComment] returns those bytes followed by one zero
    byte and reports [commentLen]. *)
Theorem GetComment_content a len w ar n0 b0 ar1 n1 bytes ar2 :
  ar_ a = Some ar ->
  ar_get_global_comment ar false 0 = (n0, b0, ar1) ->
  let commentLen := to_size_t bld n0 in
  commentLen <> 0 -> commentLen <> SIZE_MAX bld ->
  can_alloc w (commentLen + 1) = true ->
  ar_get_global_comment ar1 true commentLen = (n1, bytes, ar2) ->
  to_size_t bld n1 = commentLen ->
  commentLen <= Z.of_nat (length bytes) ->
  exists a' w',
    GetComment bld a len w =
      Returned (Some (take (Z.to_nat commentLen) bytes ++ [x00]),
                if len then Some commentLen else None, a', w').
Proof.
  intros Har H0 commentLen Hnz Hnm Halloc H1 Hread Hbytes.
  pose proof (to_size_t_range bld n0) as Hr. fold commentLen in Hr.
  unfold GetComment. rewrite Har, H0. fold commentLen.
  destruct (Z.eqb_spec 0 commentLen); [congruence|].
  destruct (Z.eqb_spec (SIZE_MAX bld) commentLen); [congruence|]. cbn [orb].
  rewrite to_size_t_id by lia.
  unfold malloc. cbn [can_alloc log]. rewrite Halloc, H1, Hread, Z.eqb_refl. cbn [negb].
  rewrite store_then_zero.
  - eexists _, _. reflexivity.
  - rewrite length_map, length_seq. lia.
  - lia.
Qed.

End CommentFacts.

(** ** The fallback extractor, beyond the listing *)

Lemma wcs_eq_refl (s : wstring) : wcs_eq s s = true.
Proof. now apply wcs_eq_eq. Qed.

Lemma names_agree_refl (l : list wstring) : names_agree l l = true.
Proof.
  induction l as [|s l IH]; [reflexivity|]. simpl. now rewrite wcs_eq_refl, IH.
Qed.

Lemma names_agree_extended (known : list wstring) : forall derived,
  names_agree known derived = true ->
  names_agree (known ++ drop (length known) derived) derived = true.
Proof.
  induction known as [|k known IH]; intros derived H; simpl.
  - rewrite drop_0. apply names_agree_refl.
  - destruct derived as [|d derived]; [reflexivity|]. simpl in H.
    apply andb_true_iff in H as [Hk Hrest]. simpl. now rewrite Hk, IH.
Qed.

Lemma unrar_usable_None w rarPath :
  unrar_procs w = None \/
  (exists lib, unrar_procs w = Some lib /\ RARGetDllVersion lib < RAR_DLL_VERSION) \/
  rarPath = None ->
  unrar_usable w rarPath = None.
Proof.
  unfold unrar_usable. intros [-> | [(lib & -> & Hv) | ->]].
  - reflexivity.
  - destruct (Z.ltb_spec (RARGetDllVersion lib) RAR_DLL_VERSION); [reflexivity | lia].
  - destruct (unrar_procs w) as [lib|]; [|reflexivity].
    destruct (RARGetDllVersion lib <? RAR_DLL_VERSION); reflexivity.
Qed.

Lemma unrar_unusable_fails w rarPath filenames filename len :
  unrar_usable w rarPath = None ->
  ExtractFilenames w rarPath filenames = Returned (false, filenames) /\
  GetFileByName w rarPath filename len = (None, None).
Proof.
  intros Hnone. unfold ExtractFilenames, GetFileByName. rewrite Hnone.
  split; reflexivity.
Qed.

(** X11.  When unrar.dll's procedures are not loaded, or the library
    reports a version below 6, or the path is null, or the library cannot
    open the archive (null handle or a non-zero [OpenResult]),
    [ExtractFilenames] returns false and leaves the list of names as it was,
    and [GetFileByName] returns null. *)
Theorem unrar_unavailable w rarPath filenames filename len :
  unrar_procs w = None \/
  (exists lib, unrar_procs w = Some lib /\ RARGetDllVersion lib < RAR_DLL_VERSION) \/
  rarPath = None \/
  (exists lib p r, unrar_usable w rarPath = Some (lib, p) /\
     (RAROpenArchiveEx lib p RAR_OM_EXTRACT = (None, r) \/
      exists hArc, RAROpenArchiveEx lib p RAR_OM_EXTRACT = (Some hArc, r) /\ r <> 0)) ->
  ExtractFilenames w rarPath filenames = Returned (false, filenames) /\
  GetFileByName w rarPath filename len = (None, None).
Proof.
  intros H.
  assert (unrar_usable w rarPath = None \/
          exists lib p r, unrar_usable w rarPath = Some (lib, p) /\
            (RAROpenArchiveEx lib p RAR_OM_EXTRACT = (None, r) \/
             exists hArc, RAROpenArchiveEx lib p RAR_OM_EXTRACT = (Some hArc, r) /\ r <> 0))
    as [Hnone | (lib & p & r & Hlib & Hopen)].
  { destruct H as [H | [H | [H | H]]]; [left | left | left | right; exact H];
      apply unrar_usable_None; auto. }
  - now apply unrar_unusable_fails.
  - unfold ExtractFilenames, GetFileByName. rewrite Hlib.
    destruct Hopen as [-> | (hArc & -> & Hr)]; [split; reflexivity|].
    destruct (Z.eqb_spec r 0); [contradiction|]. split; reflexivity.
Qed.

(** X12.  Listing is stable: when [ExtractFilenames] returns true with the
    list [names], calling it again on [names] returns true with the same
    list, without crashing. *)
Theorem ExtractFilenames_stable w rarPath filenames names :
  ExtractFilenames w rarPath filenames = Returned (true, names) ->
  ExtractFilenames w rarPath names = Returned (true, names).
Proof.
  unfold ExtractFilenames.
  destruct (unrar_usable w rarPath) as [[lib p]|]; [|discriminate].
  destruct (RAROpenArchiveEx lib p RAR_OM_EXTRACT) as [[hArc|] r]; [|discriminate].
  destruct (negb (r =? 0)); [discriminate|].
  rewrite !ExtractFilenames_loop_spec by lia. rewrite !Nat.sub_0_r, !drop_0.
  set (derived := map normalised_name (members_ahead hArc)).
  destruct (names_agree filenames derived) eqn:Hagree; [|discriminate].
  intros [= <-]. rewrite (names_agree_extended _ _ Hagree).
  rewrite (drop_ge derived (length (filenames ++ drop (length filenames) derived)));
    [now rewrite app_nil_r|].
  rewrite length_app, length_drop. lia.
Qed.

Lemma GetFileByName_find_miss (ahead : list RarMember) code filename :
  Forall (fun m => EqIW (Some (normalised_name m)) filename = false) ahead ->
  GetFileByName_find ahead code filename = (code, None).
Proof.
  induction 1 as [|m ahead Hm _ IH]; cbn [GetFileByName_find]; [reflexivity|].
  fold (normalised_name m). now rewrite Hm.
Qed.

Lemma GetFileByName_find_first (pre : list RarMember) m post code filename :
  Forall (fun m => EqIW (Some (normalised_name m)) filename = false) pre ->
  EqIW (Some (normalised_name m)) filename = true ->
  GetFileByName_find (pre ++ m :: post) code filename = (0, Some m).
Proof.
  induction 1 as [|m' pre Hm' _ IH]; intros Hhit; cbn [GetFileByName_find app].
  - fold (normalised_name m). now rewrite Hhit.
  - fold (normalised_name m'). rewrite Hm'. now apply IH.
Qed.

(** X13.  When no header of the archive has a name that matches (after the
    separators are normalised, without regard to ASCII case),
    [GetFileByName] returns null. *)
Theorem GetFileByName_not_found w rarPath filename len lib p hArc r :
  unrar_usable w rarPath = Some (lib, p) ->
  RAROpenArchiveEx lib p RAR_OM_EXTRACT = (Some hArc, r) ->
  Forall (fun m => EqIW (Some (normalised_name m)) filename = false)
         (members_ahead hArc) ->
  GetFileByName w rarPath filename len = (None, None).
Proof.
  intros Hlib Hopen Hmiss. unfold GetFileByName. rewrite Hlib, Hopen.
  destruct (negb (r =? 0)); [reflexivity|].
  rewrite (GetFileByName_find_miss _ _ _ Hmiss).
  pose proof (end_code_nonzero hArc).
  destruct (Z.eqb_spec (end_code hArc) 0); [contradiction | reflexivity].
Qed.

Lemma AppendChecked_all w (data chunk : list byte) :
  (forall n, can_alloc w n = true) ->
  AppendChecked w data chunk (Z.of_nat (length chunk)) = (true, data ++ chunk).
Proof.
  intros Hmem. unfold AppendChecked. rewrite Hmem, Nat2Z.id, firstn_all. reflexivity.
Qed.

Lemma RARProcessFile_test_all w (msgs : list (Z * list byte)) code : forall data,
  (forall n, can_alloc w n = true) ->
  Forall (fun msg => fst msg = UCM_PROCESSDATA) msgs ->
  RARProcessFile_test w msgs code data = (code, data ++ concat (map snd msgs)).
Proof.
  induction msgs as [|[msg chunk] msgs IH]; intros data Hmem Hall; cbn [RARProcessFile_test].
  - now rewrite app_nil_r.
  - inversion Hall as [|? ? Hmsg Hrest]; subst. cbn [fst] in Hmsg. subst msg.
    unfold unrarCallback. cbn [Z.eqb Pos.eqb UCM_PROCESSDATA negb].
    rewrite AppendChecked_all by assumption. cbn [Z.eqb].
    rewrite IH by assumption. cbn [map snd concat]. now rewrite app_assoc.
Qed.

(** X14.  [GetFileByName] extracts the first member, in header order, whose
    normalised name matches without regard to ASCII case.  When that member
    declares no high size word, memory is not short, and the library
    delivers, in data messages only, as many bytes as the header declares
    and reports success, the buffer returned is those chunks in the order
    delivered, followed by three zero bytes. *)
Theorem GetFileByName_content w rarPath filename len lib p hArc pre m post :
  unrar_usable w rarPath = Some (lib, p) ->
  RAROpenArchiveEx lib p RAR_OM_EXTRACT = (Some hArc, 0) ->
  members_ahead hArc = pre ++ m :: post ->
  Forall (fun m' => EqIW (Some (normalised_name m')) filename = false) pre ->
  EqIW (Some (normalised_name m)) filename = true ->
  UnpSizeHigh (member_header m) = 0 ->
  (forall n, can_alloc w n = true) ->
  Forall (fun msg => fst msg = UCM_PROCESSDATA) (member_messages m) ->
  member_test_code m = 0 ->
  UnpSize (member_header m)
    = Z.of_nat (length (concat (map snd (member_messages m)))) ->
  fst (GetFileByName w rarPath filename len)
    = Some (concat (map snd (member_messages m)) ++ [x00; x00; x00]).
Proof.
  intros Hlib Hopen Hm Hpre Hhit Hhigh Hmem Hmsgs Hcode Hsize.
  unfold GetFileByName. rewrite Hlib, Hopen, Hm. cbn [Z.eqb negb].
  rewrite (GetFileByName_find_first _ _ _ _ _ Hpre Hhit). cbn [Z.eqb].
  rewrite Hhigh. cbn [Z.eqb negb].
  rewrite RARProcessFile_test_all by assumption. cbn [app].
  rewrite Hsize, Z.eqb_refl, Hcode. cbn [negb].
  unfold AppendChecked. rewrite Hmem. cbn [negb Z.eqb]. reflexivity.
Qed.

(** X15.  Where unrar.dll is neither installed nor loaded, constructing an
    [UnRarDll] leaves it unavailable: both methods report failure, and the
    list of names is left as it was. *)
Theorem UnRarDll_absent w rarPath filenames filename len :
  unrar_installed w = None -> unrar_procs w = None ->
  let w' := snd (UnRarDll_ctor w) in
  ExtractFilenames w' rarPath filenames = Returned (false, filenames) /\
  GetFileByName w' rarPath filename len = (None, None).
Proof.
  intros Hinst Hprocs w'. apply unrar_unusable_fails, unrar_usable_None. left.
  subst w'. unfold UnRarDll_ctor. now rewrite Hprocs, Hinst.
Qed.

(** ** The factories *)

Section FactoryFacts.

Context (bld : Build).
Context {FILE ar_stream ar_archive : Type} `{!Codec ar_archive}.
Context (U : Unarr FILE ar_stream ar_archive).

Lemma OpenArchive_open (f : Factory) path w :
  OpenArchive bld U f path w
    = open bld U (Archive_ctor (factory_opener U f) (factory_format f)) path w.
Proof. destruct f as [[|]| | |]; reflexivity. Qed.

Lemma open_inv (a0 : Archive ar_stream ar_archive) path w a w' :
  open bld U a0 path w = Returned (a, w') ->
  exists b, Open bld a0 (ar_open U (OpenFILE U path)) w = Returned (b, a, w').
Proof.
  unfold open. destruct (Open bld a0 _ w) as [[[b a1] w1]| |]; try discriminate.
  intros [= <- <-]. eauto.
Qed.

(** X16.  Whatever happens while opening, a handle that a factory returns
    carries the factory's format and opener and the stream that was opened,
    and its table is well formed: every record sits at its own id, holds a
    [size_t] as size and has a non-null name. *)
Theorem factory_handle (f : Factory) path w a w' :
  OpenArchive bld U f path w = Returned (a, w') ->
  format a = factory_format f /\
  data_ a = ar_open U (OpenFILE U path) /\
  table_ok bld (GetFileInfos a).
Proof.
  rewrite OpenArchive_open. intros [b R]%open_inv. unfold GetFileInfos.
  destruct b.
  - split; [|split].
    + apply Open_true_inv in R as (? & ? & ? & ? & _ & _ & _ & _ & -> & _). reflexivity.
    + apply Open_true_inv in R as (? & ? & ? & ? & -> & _ & _ & _ & -> & _). reflexivity.
    + eapply Open_ctor_table_ok. exact R.
  - apply Open_false_inv in R as (Hf & Hd & Ht & _).
    split; [exact Hf|]. split; [exact Hd|].
    rewrite Ht. intros k fi Hk. destruct k; discriminate.
Qed.

(** X17.  A factory returns a handle even when nothing could be opened.
    When the file or stream cannot be opened, the decoder's opener returns
    null, or the opened decoder is already at end-of-data, the handle's
    table is empty: every name looks up to [(size_t)-1] and every extraction
    returns null, leaving the handle as it is. *)
Theorem factory_failure (f : Factory) path w :
  ar_open U (OpenFILE U path) = None \/
  (exists d, ar_open U (OpenFILE U path) = Some d /\
     (factory_opener U f d = None \/
      exists ar, factory_opener U f d = Some ar /\ ar_at_eof ar = true)) ->
  exists a w',
    OpenArchive bld U f path w = Returned (a, w') /\
    GetFileInfos a = [] /\
    (forall fileName, GetFileId bld a fileName = SIZE_MAX bld) /\
    (forall id len w1, 0 <= id ->
       GetFileDataById bld a id len w1 = Returned (None, None, a, w1)) /\
    (forall fileName len w1,
       GetFileDataByName bld a fileName len w1 = Returned (None, None, a, w1)).
Proof.
  intros Hfail. rewrite OpenArchive_open. unfold open.
  set (a0 := Archive_ctor (factory_opener U f) (factory_format f)).
  assert (exists a w', Open bld a0 (ar_open U (OpenFILE U path)) w
                         = Returned (false, a, w')) as (a & w' & R).
  { unfold Open. cbn [a0 Archive_ctor opener_ set_data_ set_ar_ format].
    destruct Hfail as [-> | (d & -> & [-> | (ar & -> & ->)])].
    - eauto.
    - destruct (Format_is_Rar _); [|eauto].
      match goal with |- context [OpenUnrarFallback bld ?A ?W] =>
        destruct (OpenUnrarFallback_result bld A W) as (a & w' & E & _); rewrite E
      end. eauto.
    - destruct (Format_is_Rar _); [|eauto].
      match goal with |- context [OpenUnrarFallback bld ?A ?W] =>
        destruct (OpenUnrarFallback_result bld A W) as (a & w' & E & _); rewrite E
      end. eauto. }
  rewrite R. exists a, w'. split; [reflexivity|].
  apply Open_false_inv in R as (_ & _ & Ht & _). cbn [a0 Archive_ctor fileInfos_] in Ht.
  assert (forall id len w1, 0 <= id ->
            GetFileDataById bld a id len w1 = Returned (None, None, a, w1)) as Hid.
  { intros id len w1 Hpos. unfold GetFileDataById. rewrite Ht.
    destruct (ar_ a); [|reflexivity].
    destruct (Z.leb_spec (Z.of_nat (length (@nil FileInfo))) id); [reflexivity|].
    simpl in *. lia. }
  unfold GetFileInfos, GetFileId, GetFileDataByName. rewrite Ht.
  split; [reflexivity|]. split; [reflexivity|]. split; [exact Hid|].
  intros fileName len w1. cbn [getFileIdByName]. apply Hid.
  pose proof (SIZE_MAX_cases bld). lia.
Qed.

(** X18.  When the stream opens, the decoder's opener accepts it and the
    handle is not at end-of-data, the factory's handle lists one record for
    every entry the decoder delivers before [ar_parse_entry] first fails, in
    that order. *)
Theorem factory_lists_entries (f : Factory) path w d ar l arF :
  ar_open U (OpenFILE U path) = Some d ->
  factory_opener U f d = Some ar -> ar_at_eof ar = false ->
  parses ar l arF ->
  Z.of_nat (length l) <= vector_max_size bld ->
  exists a w',
    OpenArchive bld U f path w = Returned (a, w') /\
    ar_ a = Some arF /\
    length (GetFileInfos a) = length l /\
    forall k : nat, GetFileInfos a !! k = entry_record bld (Z.of_nat k) <$> l !! k.
Proof.
  intros Hs Ho He P Hfit. rewrite OpenArchive_open. unfold open. rewrite Hs.
  set (a0 := Archive_ctor (factory_opener U f) (factory_format f)).
  pose proof (Open_parsed bld a0 d ar l arF w Ho He P) as R.
  cbn [a0 Archive_ctor fileInfos_ length Nat.add app] in R.
  specialize (R (or_intror Hfit)). fold a0 in R. rewrite R.
  eexists _, _. split; [reflexivity|]. split; [reflexivity|].
  pose proof (vector_max_size_lt bld) as [_ Hmax].
  cbn [GetFileInfos opened_archive set_fileInfos_ fileInfos_]. split.
  - apply records_length.
  - intros k. rewrite records_lookup by lia. reflexivity.
Qed.

End FactoryFacts.

(** ** The further properties at concrete inputs *)

Lemma two_parses : parses two_0 [two_1; two_2] two_3.
Proof.
  apply parses_more with (ar1 := two_1); [reflexivity|].
  apply parses_more with (ar1 := two_2); [reflexivity|].
  apply parses_stop. reflexivity.
Defined.

Lemma zip_Open_run :
  Open win64 new_zip (Some zip_stream) world0
    = Returned (true, zip_opened, zip_opened_world).
Proof. vm_compute. reflexivity. Defined.

(** Opening the two-member container a second time on the same handle: the
    table grows to four records, and the two new ones are numbered 0 and 1. *)
Lemma Open_table_growth_witness :
  exists a' w',
    Open win64 zip_opened (Some zip_stream) world0 = Returned (true, a', w') /\
    exists new, fileInfos_ a' = fileInfos_ zip_opened ++ new /\
      length new = 2%nat /\
      forall (k : nat) fi, new !! k = Some fi -> fileId fi = Z.of_nat k.
Proof.
  eexists _, _.
  match goal with |- ?G /\ _ => assert (R : G) by (vm_compute; reflexivity) end.
  split; [exact R|].
  destruct (Open_table_growth win64 _ _ _ _ _ _ R) as (_ & _ & new & E & Hnew).
  exists new. split; [exact E|]. split; [|exact Hnew].
  apply (f_equal length) in E. rewrite length_app in E. vm_compute in E.
  injection E as E. symmetry. exact E.
Defined.

Lemma Open_call_log_witness :
  Open win64 new_zip (Some zip_stream) world0
    = Returned (true, zip_opened, zip_opened_world) /\
  calls_since world0 zip_opened_world
    = [EvParse false; EvParse true; EvParse true; EvOpen true].
Proof.
  split; [exact zip_Open_run|].
  exact (Open_call_log win64 _ _ _ _ _ _ zip_Open_run).
Defined.

(** Extracting [a.txt]: seek, allocate 8 bytes, decompress 5. *)
Lemma GetFileDataById_calls_witness :
  exists r n a' w',
    GetFileDataById win64 zip_opened 0 true world0 = Returned (r, n, a', w') /\
    calls_since world0 w' = [EvUncompress 5 true; EvMalloc 8 true; EvSeek 30 true].
Proof.
  eexists _, _, _, _.
  match goal with |- ?G /\ _ => assert (R : G) by (vm_compute; reflexivity) end.
  split; [exact R|].
  destruct (GetFileDataById_calls win64 _ _ _ _ _ _ _ _ R)
    as [(_ & Hr & _) | (fi & Hfi & H)]; [discriminate|].
  vm_compute. reflexivity.
Defined.

Lemma GetFileDataById_content_witness :
  ar_ zip_opened = Some two_3 /\
  fileInfos_ zip_opened !! Z.to_nat 0 = Some record_a /\
  ar_parse_entry_at two_3 (filePos record_a) = (true, two_at_a) /\
  ar_entry_uncompress two_at_a 5 = (true, bytes_hello, two_at_a) /\
  exists a' w',
    GetFileDataById win64 zip_opened 0 true world0
      = Returned (Some (bytes_hello ++ [x00; x00; x00]), Some 5, a', w') /\
    ar_ a' = Some two_at_a.
Proof.
  assert (H1 : ar_ zip_opened = Some two_3) by reflexivity.
  assert (H2 : fileInfos_ zip_opened !! Z.to_nat 0 = Some record_a) by reflexivity.
  assert (H3 : ar_parse_entry_at two_3 (filePos record_a) = (true, two_at_a)) by reflexivity.
  assert (H4 : ar_entry_uncompress two_at_a (fileSizeUncompressed record_a)
               = (true, bytes_hello, two_at_a)) by reflexivity.
  assert (H5 : 0 <= fileSizeUncompressed record_a <= SIZE_MAX win64 - 3)
    by (vm_compute; split; discriminate).
  assert (H6 : fileSizeUncompressed record_a <= Z.of_nat (length bytes_hello))
    by (vm_compute; discriminate).
  repeat (split; [assumption|]).
  exact (GetFileDataById_content win64 zip_opened 0 true world0 two_3 record_a two_at_a
           bytes_hello two_at_a H1 ltac:(lia) H2 eq_refl H3 H5 eq_refl H4 H6).
Defined.

Lemma extraction_keeps_handle_witness :
  exists r n a' w',
    GetFileDataById win64 zip_opened 7 true world0 = Returned (r, n, a', w') /\
    fileInfos_ a' = fileInfos_ zip_opened /\ (ar_ a' = None <-> ar_ zip_opened = None).
Proof.
  eexists _, _, _, _.
  match goal with |- ?G /\ _ => assert (R : G) by (vm_compute; reflexivity) end.
  split; [exact R|].
  destruct (extraction_keeps_handle win64 zip_opened true world0 _ _ _ _
              (or_introl (ex_intro _ 7 R))) as (_ & _ & _ & Ht & Har).
  split; assumption.
Defined.

Lemma zip_opened_table_ok : table_ok win64 (fileInfos_ zip_opened).
Proof. exact (Open_ctor_table_ok win64 _ _ _ _ _ _ zip_Open_run). Defined.

(** [B/C.BIN] is found at index 1, [missing] is not found. *)
Lemma GetFileId_lookup_witness :
  table_ok win64 (fileInfos_ zip_opened) /\
  GetFileId win64 zip_opened (Some "B/C.BIN"%string) = 1 /\
  ((GetFileId win64 zip_opened (Some "missing"%string) = SIZE_MAX win64 /\
    forall (k : nat) fi, GetFileInfos zip_opened !! k = Some fi ->
      EqI (name fi) (Some "missing"%string) = false) \/
   exists (k : nat) fi,
     GetFileId win64 zip_opened (Some "missing"%string) = Z.of_nat k /\
     GetFileInfos zip_opened !! k = Some fi /\
     EqI (name fi) (Some "missing"%string) = true /\
     forall (j : nat) fj, (j < k)%nat -> GetFileInfos zip_opened !! j = Some fj ->
       EqI (name fj) (Some "missing"%string) = false).
Proof.
  split; [exact zip_opened_table_ok|]. split; [reflexivity|].
  exact (GetFileId_lookup win64 zip_opened (Some "missing"%string) zip_opened_table_ok).
Defined.

Lemma extraction_never_crashes_witness :
  table_ok win64 (fileInfos_ zip_opened) /\
  exists res, GetFileDataByName win64 zip_opened (Some "A.txt"%string) true world0
                = Returned res.
Proof.
  split; [exact zip_opened_table_ok|].
  exact (proj2 (extraction_never_crashes win64 zip_opened zip_opened_table_ok)
               (Some "A.txt"%string) true world0).
Defined.

(** The two-member container has no comment. *)
Lemma GetComment_null_witness :
  ar_ zip_opened = Some two_3 /\
  ar_get_global_comment two_3 false 0 = (0, [], two_3) /\
  GetComment win64 zip_opened true world0
    = Returned (None, None, set_ar_ (Some two_3) zip_opened, log (EvComment 0) world0).
Proof.
  assert (H1 : ar_ zip_opened = Some two_3) by reflexivity.
  assert (H2 : ar_get_global_comment two_3 false 0 = (0, [], two_3)) by reflexivity.
  split; [exact H1|]. split; [exact H2|].
  apply (proj1 (GetComment_null win64 zip_opened true world0 two_3 0 [] two_3 H1 H2)).
  left. reflexivity.
Defined.

(** The comment [hi] comes back as [hi] and a zero byte, with length 2. *)
Lemma GetComment_content_witness :
  ar_ note_opened = Some note_2 /\
  ar_get_global_comment note_2 false 0 = (2, [], note_2) /\
  ar_get_global_comment note_2 true 2 = (2, [x68; x69], note_2) /\
  exists a' w',
    GetComment win64 note_opened true world0
      = Returned (Some [x68; x69; x00], Some 2, a', w').
Proof.
  assert (H1 : ar_ note_opened = Some note_2) by reflexivity.
  assert (H2 : ar_get_global_comment note_2 false 0 = (2, [], note_2)) by reflexivity.
  assert (H3 : ar_get_global_comment note_2 true (to_size_t win64 2)
               = (2, [x68; x69], note_2)) by reflexivity.
  split; [exact H1|]. split; [exact H2|]. split; [exact H3|].
  refine (GetComment_content win64 note_opened true world0 note_2 2 [] note_2 2
            [x68; x69] note_2 H1 H2 _ _ eq_refl H3 eq_refl _);
    vm_compute; discriminate.
Defined.

Lemma unrar_unavailable_witness :
  unrar_procs world0 = None /\
  ExtractFilenames world0 (Some (L "x.rar")) [L "kept"] = Returned (false, [L "kept"]) /\
  GetFileByName world0 (Some (L "x.rar")) (Some (L "dir/a.txt")) true = (None, None).
Proof.
  split; [reflexivity|].
  apply unrar_unavailable. left. reflexivity.
Defined.

Lemma ExtractFilenames_stable_witness :
  ExtractFilenames world_unrar_loaded (Some (L "x.rar")) [L "dir/a.txt"]
    = Returned (true, [L "dir/a.txt"; L "dir/sub/b.txt"]) /\
  ExtractFilenames world_unrar_loaded (Some (L "x.rar")) [L "dir/a.txt"; L "dir/sub/b.txt"]
    = Returned (true, [L "dir/a.txt"; L "dir/sub/b.txt"]).
Proof.
  assert (R : ExtractFilenames world_unrar_loaded (Some (L "x.rar")) [L "dir/a.txt"]
              = Returned (true, [L "dir/a.txt"; L "dir/sub/b.txt"])) by reflexivity.
  split; [exact R|].
  exact (ExtractFilenames_stable _ _ _ _ R).
Defined.

Lemma GetFileByName_not_found_witness :
  unrar_usable world_unrar_loaded (Some (L "x.rar")) = Some (unrar6, L "x.rar") /\
  GetFileByName world_unrar_loaded (Some (L "x.rar")) (Some (L "dir/c.txt")) true
    = (None, None).
Proof.
  assert (H1 : unrar_usable world_unrar_loaded (Some (L "x.rar"))
               = Some (unrar6, L "x.rar")) by reflexivity.
  split; [exact H1|].
  apply (GetFileByName_not_found _ _ _ _ unrar6 (L "x.rar")
           {| members_ahead := [rar_a; rar_b]; ends_broken := false |} 0 H1 eq_refl).
  repeat constructor.
Defined.

(** [DIR/A.TXT] matches the first header, [dir\a.txt]. *)
Lemma GetFileByName_content_witness :
  EqIW (Some (normalised_name rar_a)) (Some (L "DIR/A.TXT")) = true /\
  UnpSize (member_header rar_a)
    = Z.of_nat (length (concat (map snd (member_messages rar_a)))) /\
  fst (GetFileByName world_unrar_loaded (Some (L "x.rar")) (Some (L "DIR/A.TXT")) false)
    = Some (bytes_hello ++ [x00; x00; x00]).
Proof.
  assert (H1 : EqIW (Some (normalised_name rar_a)) (Some (L "DIR/A.TXT")) = true)
    by reflexivity.
  assert (H2 : UnpSize (member_header rar_a)
               = Z.of_nat (length (concat (map snd (member_messages rar_a)))))
    by reflexivity.
  split; [exact H1|]. split; [exact H2|].
  refine (GetFileByName_content world_unrar_loaded (Some (L "x.rar")) (Some (L "DIR/A.TXT"))
            false unrar6 (L "x.rar")
            {| members_ahead := [rar_a; rar_b]; ends_broken := false |}
            [] rar_a [rar_b] eq_refl eq_refl eq_refl _ H1 eq_refl _ _ eq_refl H2).
  - constructor.
  - intros n. reflexivity.
  - repeat constructor.
Defined.

Lemma UnRarDll_absent_witness :
  unrar_installed world0 = None /\ unrar_procs world0 = None /\
  ExtractFilenames (snd (UnRarDll_ctor world0)) (Some (L "x.rar")) []
    = Returned (false, []).
Proof.
  split; [reflexivity|]. split; [reflexivity|].
  exact (proj1 (UnRarDll_absent world0 (Some (L "x.rar")) [] None false eq_refl eq_refl)).
Defined.

Lemma factory_handle_witness :
  exists a w',
    OpenArchive win64 mem_unarr (ZipFactory false) "two.zip" world0 = Returned (a, w') /\
    format a = Zip /\ table_ok win64 (GetFileInfos a).
Proof.
  eexists _, _.
  match goal with |- ?G /\ _ => assert (R : G) by (vm_compute; reflexivity) end.
  split; [exact R|].
  destruct (factory_handle win64 mem_unarr (ZipFactory false) _ _ _ _ R) as (Hf & _ & Ht).
  split; assumption.
Defined.

(** A file that is not there, and a Zip file opened for deflated entries
    only, which this opener refuses. *)
Lemma factory_failure_witness :
  ar_open mem_unarr (OpenFILE mem_unarr "missing.zip") = None /\
  (exists a w',
     OpenArchive win64 mem_unarr RarFactory "missing.zip" world_unrar = Returned (a, w') /\
     GetFileInfos a = []) /\
  exists a w',
    OpenArchive win64 mem_unarr (ZipFactory true) "two.zip" world0 = Returned (a, w') /\
    GetFileInfos a = [] /\
    forall fileName len w1,
      GetFileDataByName win64 a fileName len w1 = Returned (None, None, a, w1).
Proof.
  assert (H1 : ar_open mem_unarr (OpenFILE mem_unarr "missing.zip") = None) by reflexivity.
  split; [exact H1|]. split.
  - destruct (factory_failure win64 mem_unarr RarFactory "missing.zip" world_unrar
                (or_introl H1)) as (a & w' & R & Ht & _).
    exists a, w'. split; assumption.
  - assert (H2 : exists d, ar_open mem_unarr (OpenFILE mem_unarr "two.zip") = Some d /\
               (factory_opener mem_unarr (ZipFactory true) d = None \/
                exists ar, factory_opener mem_unarr (ZipFactory true) d = Some ar /\
                           ar_at_eof ar = true)).
    { exists (Some two_0). split; [reflexivity|]. left. reflexivity. }
    destruct (factory_failure win64 mem_unarr (ZipFactory true) "two.zip" world0
                (or_intror H2)) as (a & w' & R & Ht & _ & _ & Hn).
    exists a, w'. repeat split; assumption.
Defined.

Lemma factory_lists_entries_witness :
  ar_open mem_unarr (OpenFILE mem_unarr "two.zip") = Some (Some two_0) /\
  factory_opener mem_unarr TarFactory (Some two_0) = Some two_0 /\
  ar_at_eof two_0 = false /\ parses two_0 [two_1; two_2] two_3 /\
  exists a w',
    OpenArchive win64 mem_unarr TarFactory "two.zip" world0 = Returned (a, w') /\
    length (GetFileInfos a) = 2%nat.
Proof.
  assert (H1 : ar_open mem_unarr (OpenFILE mem_unarr "two.zip") = Some (Some two_0))
    by reflexivity.
  assert (H2 : factory_opener mem_unarr TarFactory (Some two_0) = Some two_0) by reflexivity.
  assert (H3 : ar_at_eof two_0 = false) by reflexivity.
  assert (H4 : Z.of_nat (length [two_1; two_2]) <= vector_max_size win64)
    by (vm_compute; discriminate).
  repeat (split; [first [assumption | exact two_parses]|]).
  destruct (factory_lists_entries win64 mem_unarr TarFactory "two.zip" world0 _ _ _ _
              H1 H2 H3 two_parses H4) as (a & w' & R & _ & Hlen & _).
  exists a, w'. split; assumption.
Defined.

(** The member that declares 9 bytes and delivers 5 is refused. *)
Lemma GetFileByName_refuses_witness :
  unrar_usable world_unrar_short (Some (L "s.rar")) = Some (unrar6_short, L "s.rar") /\
  UnpSize (member_header rar_short) <>
    Z.of_nat (length (snd (RARProcessFile_test world_unrar_short
                             (member_messages rar_short)
                             (member_test_code rar_short) []))) /\
  GetFileByName world_unrar_short (Some (L "s.rar")) (Some (L "short.bin")) true
    = (None, None).
Proof.
  assert (H1 : unrar_usable world_unrar_short (Some (L "s.rar"))
               = Some (unrar6_short, L "s.rar")) by reflexivity.
  assert (H2 : UnpSize (member_header rar_short) <>
               Z.of_nat (length (snd (RARProcessFile_test world_unrar_short
                                        (member_messages rar_short)
                                        (member_test_code rar_short) []))))
    by (vm_compute; discriminate).
  split; [exact H1|]. split; [exact H2|].
  exact (GetFileByName_refuses world_unrar_short (Some (L "s.rar")) (Some (L "short.bin"))
           true unrar6_short (L "s.rar")
           {| members_ahead := [rar_short]; ends_broken := false |} rar_short
           H1 eq_refl eq_refl (or_intror H2)).
Defined.


(** Extracting [a.txt] from the opened two-member container: the decoder
    finds the entry at position 30 and decompresses its 5 bytes. *)
Lemma GetFileDataById_zero_padded_witness :
  table_ok win64 (GetFileInfos zip_opened) /\
  ar_ zip_opened = Some two_3 /\
  GetFileInfos zip_opened !! Z.to_nat 0 = Some record_a /\
  ar_parse_entry_at two_3 (filePos record_a) = (true, two_at_a) /\
  can_alloc world0 (fileSizeUncompressed record_a + 3) = true /\
  ar_entry_uncompress two_at_a (fileSizeUncompressed record_a)
    = (true, bytes_hello, two_at_a) /\
  exists data a' w',
    GetFileDataById win64 zip_opened 0 true world0
      = Returned (Some data, Some 5, a', w') /\
    Z.of_nat (length data) = 5 + 3 /\
    data !! 5%nat = Some x00 /\ data !! 6%nat = Some x00 /\ data !! 7%nat = Some x00.
Proof.
  assert (H1 : ar_ zip_opened = Some two_3) by reflexivity.
  assert (H2 : GetFileInfos zip_opened !! Z.to_nat 0 = Some record_a) by reflexivity.
  assert (H3 : ar_parse_entry_at two_3 (filePos record_a) = (true, two_at_a)) by reflexivity.
  assert (H4 : can_alloc world0 (fileSizeUncompressed record_a + 3) = true) by reflexivity.
  assert (H5 : ar_entry_uncompress two_at_a (fileSizeUncompressed record_a)
               = (true, bytes_hello, two_at_a)) by reflexivity.
  assert (H6 : fileSizeUncompressed record_a <= SIZE_MAX win64 - 3)
    by (vm_compute; discriminate).
  split; [exact zip_opened_table_ok|].
  repeat (split; [assumption|]).
  exact (GetFileDataById_zero_padded win64 zip_opened 0 true world0 two_3 record_a
           two_at_a bytes_hello two_at_a zip_opened_table_ok H1 ltac:(lia) H2 H6 H3 H4 H5).
Defined.
